(** * ShowController: the read side of the show catalog

    A shallow embedding of [src/controllers/ShowController.js] and of the
    parts of JavaScript, of the regular-expression engine and of the
    MongoDB aggregation pipeline that the controller relies on, followed
    by the properties of the four request handlers [getShows], [getPage],
    [getShow] and [getRandomShow].

    Conventions.
    - A JavaScript string is a [string]; every [ascii] stands for one
      UTF-16 code unit below 256.
    - A JavaScript number that holds an integer is a [Z], of any size:
      counts and offsets stay far below 2^53, where the floating-point
      operations of the source are exact.  [None] in an [option Z]
      stands for a number that is not an integer, [NaN] among them.
      The page parameter, which may be any string, is read as a
      [Js.number], with the rounding of the floating point on the
      values that have a fractional part.
    - A promise chain is a computation in the monad [P] below: it threads
      the log of calls made on [res] and [next] and ends fulfilled or
      rejected. *)

From Stdlib Require Import ZArith List String Ascii Bool Lia Arith.
From Stdlib Require Import Permutation Sorted DecimalString.
From Stdlib Require DecimalNat DecimalFacts.
Import ListNotations.

Local Open Scope string_scope.
Local Open Scope Z_scope.

(* ===================================================================== *)
(** ** JavaScript strings and numbers *)
(* ===================================================================== *)

Module Js.

Definition code (a : ascii) : N := N_of_ascii a.

Definition between (lo hi : N) (a : ascii) : bool :=
  ((lo <=? code a) && (code a <=? hi))%N.

Definition is_digit : ascii -> bool := between 48 57.
Definition is_upper : ascii -> bool := between 65 90.
Definition is_lower : ascii -> bool := between 97 122.

(** [[a-zA-Z0-9]] *)
Definition is_alnum (a : ascii) : bool :=
  is_lower a || is_upper a || is_digit a.

(** [\w]: the characters that make up a word for [\b]. *)
Definition is_word (a : ascii) : bool :=
  is_alnum a || (a =? "_")%char.

(** [\s], and the white space that [parseInt] and the string to number
    conversion skip: TAB, LF, VT, FF, CR, SP and NBSP. *)
Definition is_space (a : ascii) : bool :=
  between 9 13 a || (code a =? 32)%N || (code a =? 160)%N.

(** [String.prototype.toLowerCase] on one code unit below 256: the
    letters A-Z, and the Latin-1 capitals other than the multiplication
    sign. *)
Definition lower_char (a : ascii) : ascii :=
  if is_upper a || (between 192 222 a && negb (code a =? 215)%N)
  then ascii_of_N (code a + 32) else a.

Fixpoint toLowerCase (s : string) : string :=
  match s with
  | EmptyString => EmptyString
  | String a r => String (lower_char a) (toLowerCase r)
  end.

(** What the [i] flag compares.  Every pattern of the controller is
    made of ASCII characters, and the engine never identifies a
    non-ASCII character with an ASCII one, so only the folding of A-Z
    is observable. *)
Definition fold_char (a : ascii) : ascii :=
  if is_upper a then ascii_of_N (code a + 32) else a.

(** [s.split(' ')]: cuts at every single SPACE; two spaces in a row, or
    a space at either end, give an empty piece. *)
Fixpoint split_space (s : string) : list string :=
  match s with
  | EmptyString => [EmptyString]
  | String a r =>
      if (a =? " ")%char then EmptyString :: split_space r
      else match split_space r with
           | w :: ws => String a w :: ws
           | [] => [String a EmptyString]
           end
  end.

(** [s.replace(/[^a-zA-Z0-9]/g, '')] *)
Fixpoint strip_non_alnum (s : string) : string :=
  match s with
  | EmptyString => EmptyString
  | String a r =>
      if is_alnum a then String a (strip_non_alnum r) else strip_non_alnum r
  end.

(** A non-empty string is truthy; [undefined] and [''] are falsy. *)
Definition truthy (o : option string) : bool :=
  match o with
  | Some (String _ _) => true
  | _ => false
  end.

Fixpoint skip_spaces (s : string) : string :=
  match s with
  | String a r => if is_space a then skip_spaces r else s
  | EmptyString => EmptyString
  end.

Definition digit_value (a : ascii) : Z := Z.of_N (code a) - 48.

(** The longest prefix of decimal digits, read as a number; [None]
    when the prefix is empty. *)
Fixpoint digits_prefix (acc : option Z) (s : string) : option Z * string :=
  match s with
  | String a r =>
      if is_digit a
      then digits_prefix
             (Some (10 * match acc with Some n => n | None => 0 end
                    + digit_value a)) r
      else (acc, s)
  | EmptyString => (acc, s)
  end.

Definition read_sign (s : string) : Z * string :=
  match s with
  | String "-" r => (-1, r)
  | String "+" r => (1, r)
  | _ => (1, s)
  end.

(** [parseInt(s, 10)]: white space, an optional sign, then as many
    decimal digits as there are; what follows is ignored. *)
Definition parseInt (s : string) : option Z :=
  let (sign, r) := read_sign (skip_spaces s) in
  match fst (digits_prefix None r) with
  | Some n => Some (sign * n)
  | None => None
  end.

(** A number: not a number, an infinity, or the fraction [n / d].
    Integers are kept exact; a value with a fractional part is one that
    the floating point represents, that is, it has 53 significant bits
    at most. *)
Inductive number : Type :=
| NaN
| Infinity (negative : bool)
| Finite (n : Z) (d : positive).

(** The integer that a number is, if it is one. *)
Definition integer_of (x : number) : option Z :=
  match x with
  | Finite n d => if n mod Z.pos d =? 0 then Some (n / Z.pos d) else None
  | _ => None
  end.

(** [n / d] as a number, with the integers in the form [i / 1]. *)
Definition fraction (n : Z) (d : positive) : number :=
  if n mod Z.pos d =? 0 then Finite (n / Z.pos d) 1 else Finite n d.

(** [n / d * 2^(-e)], numerator and denominator. *)
Definition scaled (n : Z) (d : positive) (e : Z) : Z * Z :=
  if 0 <=? e then (n, Z.pos d * 2 ^ e) else (n * 2 ^ (- e), Z.pos d).

(** The positive fraction [n / d] rounded to 53 significant bits, to the
    nearest and to the even one in a tie: the result is [m * 2^e] with
    [2^52 <= m <= 2^53]. *)
Definition round_bits (n : Z) (d : positive) : Z * Z :=
  let e0 := Z.log2 n - Z.log2 (Z.pos d) - 52 in
  let e := if fst (scaled n d e0) / snd (scaled n d e0) <? 2 ^ 52
           then e0 - 1 else e0 in
  let (a, b) := scaled n d e in
  let m := a / b in
  let r := a mod b in
  (match 2 * r ?= b with
   | Lt => m
   | Gt => m + 1
   | Eq => if Z.even m then m else m + 1
   end, e).

(** The number that the floating point has for the exact value
    [n / d]. *)
Definition rounded (n : Z) (d : positive) : number :=
  if n mod Z.pos d =? 0 then Finite (n / Z.pos d) 1
  else
    let (m, e) := round_bits (Z.abs n) d in
    if 0 <=? e then Finite (Z.sgn n * m * 2 ^ e) 1
    else fraction (Z.sgn n * m) (Z.to_pos (2 ^ (- e))).

(** [x - z] and [x * z] for an integer [z]. *)
Definition minus (x : number) (z : Z) : number :=
  match x with
  | Finite n d => rounded (n - z * Z.pos d) d
  | _ => x
  end.

Definition times (x : number) (z : Z) : number :=
  match x with
  | NaN => NaN
  | Infinity negative =>
      if z =? 0 then NaN else Infinity (xorb negative (z <? 0))
  | Finite n d => rounded (n * z) d
  end.

(** As many decimal digits as there are: their value after [acc], their
    number after [count], and what follows. *)
Fixpoint read_digits (acc : Z) (count : nat) (s : string) : Z * nat * string :=
  match s with
  | String a r =>
      if is_digit a then read_digits (10 * acc + digit_value a) (S count) r
      else (acc, count, s)
  | EmptyString => (acc, count, s)
  end.

(** Nothing but white space. *)
Definition blank (s : string) : bool :=
  match skip_spaces s with
  | EmptyString => true
  | _ => false
  end.

(** An exponent part, [e] or [E], an optional sign and digits; none
    counts for the exponent 0, and one without digits is refused. *)
Definition read_exponent (s : string) : option (Z * string) :=
  match s with
  | String a r =>
      if (a =? "e")%char || (a =? "E")%char then
        let (sign, r1) := read_sign r in
        let '(v, count, r2) := read_digits 0 0 r1 in
        match count with
        | O => None
        | S _ => Some (sign * v, r2)
        end
      else Some (0, s)
  | EmptyString => Some (0, s)
  end.

(** An unsigned decimal literal: digits, a point and digits, an
    exponent, with a digit at least before or after the point.  The
    result is [(m, p, rest)] for the value [m * 10^p]. *)
Definition read_decimal (s : string) : option (Z * Z * string) :=
  let '(iv, icount, r1) := read_digits 0 0 s in
  let '(fv, fcount, r2) :=
    match r1 with
    | String "." r => read_digits iv 0 r
    | _ => (iv, O, r1)
    end in
  match (icount + fcount)%nat with
  | O => None
  | S _ =>
      match read_exponent r2 with
      | Some (e, r3) => Some (fv, e - Z.of_nat fcount, r3)
      | None => None
      end
  end.

(** The value of a digit in a radix, if it is one of its digits. *)
Definition radix_digit (radix : Z) (a : ascii) : option Z :=
  let v := if is_digit a then Z.of_N (code a) - 48
           else if between 97 102 a then Z.of_N (code a) - 87
           else if between 65 70 a then Z.of_N (code a) - 55
           else radix in
  if v <? radix then Some v else None.

Fixpoint read_radix_digits (radix : Z) (acc : option Z) (s : string)
  : option Z * string :=
  match s with
  | String a r =>
      match radix_digit radix a with
      | Some v =>
          read_radix_digits radix
            (Some (radix * match acc with Some n => n | None => 0 end + v)) r
      | None => (acc, s)
      end
  | EmptyString => (acc, s)
  end.

Definition radix_of (a : ascii) : option Z :=
  if (a =? "x")%char || (a =? "X")%char then Some 16
  else if (a =? "o")%char || (a =? "O")%char then Some 8
  else if (a =? "b")%char || (a =? "B")%char then Some 2
  else None.

(** A literal in radix 16, 8 or 2, after [0x], [0o] or [0b]; [None]
    when the string does not start so. *)
Definition read_radix (s : string) : option number :=
  match s with
  | String "0" (String a r) =>
      match radix_of a with
      | Some radix =>
          Some (match read_radix_digits radix None r with
                | (Some v, rest) => if blank rest then Finite v 1 else NaN
                | (None, _) => NaN
                end)
      | None => None
      end
  | _ => None
  end.

Fixpoint strip_prefix (p s : string) : option string :=
  match p, s with
  | EmptyString, _ => Some s
  | String a p', String b s' => if (a =? b)%char then strip_prefix p' s' else None
  | String _ _, EmptyString => None
  end.

(** [m * 10^p] *)
Definition decimal (m p : Z) : number :=
  if 0 <=? p then Finite (m * 10 ^ p) 1 else rounded m (Z.to_pos (10 ^ (- p))).

(** The conversion of a string to a number, as [req.params.page - 1]
    applies it: white space around a literal that is in decimal, with
    an optional sign, fraction and exponent, or [Infinity] with an
    optional sign, or in radix 16, 8 or 2 without a sign; the empty
    string is 0 and everything else is [NaN]. *)
Definition stringToNumber (s : string) : number :=
  match skip_spaces s with
  | EmptyString => Finite 0 1
  | t =>
      match read_radix t with
      | Some x => x
      | None =>
          let (sign, r) := read_sign t in
          match strip_prefix "Infinity" r with
          | Some rest => if blank rest then Infinity (sign <? 0) else NaN
          | None =>
              match read_decimal r with
              | Some (m, p, rest) =>
                  if blank rest then decimal (sign * m) p else NaN
              | None => NaN
              end
          end
      end
  end.

(** The integer that a string denotes, if it denotes one. *)
Definition toNumber (s : string) : option Z := integer_of (stringToNumber s).

(** The decimal numeral that a template literal prints for a
    non-negative integer. *)
Definition show_nat (n : nat) : string :=
  NilZero.string_of_uint (Nat.to_uint n).

End Js.

(* ===================================================================== *)
(** ** Regular expressions *)
(* ===================================================================== *)

Module Regex.

(** The constructs that occur in the patterns of the controller. *)
Inductive regex : Type :=
| REps                                (* the empty pattern *)
| RLit (a : ascii)                    (* a pattern character *)
| RSet (p : ascii -> bool)            (* a class: [.], [\s], [[-\s]] *)
| RSeq (r1 r2 : regex)
| RStar (r : regex)
| RLook (r : regex)                   (* [(?=r)] *)
| RBol                                (* [^] *)
| RWordB.                             (* [\b] *)

(** A position in the subject: the characters already passed, last one
    first, and the characters still ahead. *)
Definition cursor : Type := (list ascii * list ascii)%type.

Definition passed (c : cursor) : list ascii := fst c.
Definition ahead (c : cursor) : list ascii := snd c.

Definition word_at (l : list ascii) : bool :=
  match l with
  | a :: _ => Js.is_word a
  | [] => false
  end.

Definition at_boundary (c : cursor) : bool :=
  xorb (word_at (passed c)) (word_at (ahead c)).

Definition same_char (icase : bool) (a b : ascii) : bool :=
  if icase then (Js.fold_char a =? Js.fold_char b)%char else (a =? b)%char.

(** One character of the subject, if it passes the test. *)
Definition eat (ok : ascii -> bool) (c : cursor) : list cursor :=
  match ahead c with
  | a :: r => if ok a then [(a :: passed c, r)] else []
  | [] => []
  end.

(** Zero or more rounds of [step]; a round that consumes nothing is
    not repeated, as in the engine. *)
Fixpoint star (step : cursor -> list cursor) (fuel : nat) (c : cursor)
  : list cursor :=
  c :: match fuel with
       | O => []
       | S f =>
           flat_map
             (fun c' =>
                if (List.length (ahead c') <? List.length (ahead c))%nat
                then star step f c' else [])
             (step c)
       end.

(** All the positions at which a match of [r] started at [c] can end. *)
Fixpoint run (icase : bool) (r : regex) (c : cursor) : list cursor :=
  match r with
  | REps => [c]
  | RLit a => eat (same_char icase a) c
  | RSet p => eat p c
  | RSeq r1 r2 => flat_map (run icase r2) (run icase r1 c)
  | RStar r1 => star (run icase r1) (List.length (ahead c)) c
  | RLook r1 => match run icase r1 c with [] => [] | _ :: _ => [c] end
  | RBol => match passed c with [] => [c] | _ :: _ => [] end
  | RWordB => if at_boundary c then [c] else []
  end.

Definition accepts (icase : bool) (r : regex) (c : cursor) : bool :=
  match run icase r c with [] => false | _ :: _ => true end.

(** Every position of a subject, from the start to the end. *)
Fixpoint cursors_from (before after : list ascii) : list cursor :=
  (before, after) ::
  match after with
  | [] => []
  | a :: r => cursors_from (a :: before) r
  end.

(** [s.match(r)] is not null, or the [$regex] operator is satisfied:
    the pattern matches somewhere in the subject. *)
Definition test (icase : bool) (r : regex) (s : string) : bool :=
  existsb (accepts icase r) (cursors_from [] (list_ascii_of_string s)).

(** The pattern that spells a string out, character by character. *)
Fixpoint lit (s : string) : regex :=
  match s with
  | EmptyString => REps
  | String a r => RSeq (RLit a) (lit r)
  end.

(** [.]: any character but a line feed. *)
Definition dot : regex := RSet (fun a => negb (a =? "010")%char).

(** [[-\s]] *)
Definition dash_or_space : regex :=
  RSet (fun a => (a =? "-")%char || Js.is_space a).

End Regex.

(* ===================================================================== *)
(** ** The show collection and the aggregation pipeline *)
(* ===================================================================== *)

Module Mongo.

Import Regex.

Record Rating : Type :=
  { votes : Z; percentage : Z; watching : Z }.

Record TorrentVariant : Type :=
  { link : string; seeds : Z; peers : Z; display_name : string }.

(** Modelled from the spec: the schema of [models/Show], which is not
    part of the sources.  The fields are those of the data model of the
    catalog entry; a field that a document does not carry, or that a
    projection has removed, is [None]. *)
Record Doc : Type :=
  { _id : option string;
    imdb_id : option string;
    tvdb_id : option string;
    title : option string;
    year : option Z;
    slug : option string;
    genres : option (list string);
    images : option (list string);
    rating : option Rating;
    num_seasons : option Z;
    latest_episode : option Z;
    episodes : option (list ((Z * Z) * list TorrentVariant)) }.

Inductive field : Type :=
| F_id | Fimdb_id | Ftvdb_id | Ftitle | Fyear | Fslug | Fgenres
| Fimages | Frating | Fnum_seasons | Flatest_episode | Fepisodes.

Definition field_eq_dec (f g : field) : {f = g} + {f <> g}.
Proof. decide equality. Defined.

(** *** Queries *)

(** The query documents that the controller writes: [{_id: v}],
    [{num_seasons: {$gt: n}}], [{title: {$regex: r, $options: o}}] and
    [{genres: g}], and their conjunctions.  The flag of [title_regex]
    tells whether the options hold [i]. *)
Record Query : Type :=
  { id_is : option string;
    num_seasons_gt : option Z;
    title_regex : option (regex * bool);
    genres_has : option string }.

Definition holds {A} (cond : option A) (ok : A -> bool) : bool :=
  match cond with
  | None => true
  | Some a => ok a
  end.

Definition field_is {A} (v : option A) (ok : A -> bool) : bool :=
  match v with
  | None => false
  | Some a => ok a
  end.

(** A scalar matches an array field when it is one of its elements. *)
Definition matches (q : Query) (d : Doc) : bool :=
  holds (id_is q) (fun i => field_is (_id d) (String.eqb i))
  && holds (num_seasons_gt q) (fun n => field_is (num_seasons d) (fun m => n <? m))
  && holds (title_regex q) (fun ro => field_is (title d) (test (snd ro) (fst ro)))
  && holds (genres_has q) (fun g => field_is (genres d) (existsb (String.eqb g))).

(** *** Projections *)

(** A projection document: [true] for [1], [false] for [0]. *)
Definition Projection : Type := list (field * bool).

Fixpoint lookup (f : field) (p : Projection) : option bool :=
  match p with
  | [] => None
  | (g, b) :: r => if field_eq_dec f g then Some b else lookup f r
  end.

Definition inclusive (p : Projection) : bool := existsb snd p.

(** An inclusive projection keeps what it lists, and [_id] unless told
    otherwise; an exclusive one keeps what it does not list. *)
Definition keeps (p : Projection) (f : field) : bool :=
  match lookup f p with
  | Some b => b
  | None => if inclusive p
            then (if field_eq_dec f F_id then true else false)
            else true
  end.

Definition pick {A} (p : Projection) (f : field) (v : option A) : option A :=
  if keeps p f then v else None.

Definition project (p : Projection) (d : Doc) : Doc :=
  {| _id := pick p F_id (_id d);
     imdb_id := pick p Fimdb_id (imdb_id d);
     tvdb_id := pick p Ftvdb_id (tvdb_id d);
     title := pick p Ftitle (title d);
     year := pick p Fyear (year d);
     slug := pick p Fslug (slug d);
     genres := pick p Fgenres (genres d);
     images := pick p Fimages (images d);
     rating := pick p Frating (rating d);
     num_seasons := pick p Fnum_seasons (num_seasons d);
     latest_episode := pick p Flatest_episode (latest_episode d);
     episodes := pick p Fepisodes (episodes d) |}.

(** *** Sorting *)

(** The paths that the controller sorts by. *)
Inductive sort_path : Type :=
| By_title | By_year | By_latest_episode
| By_rating_votes | By_rating_percentage | By_rating_watching.

(** The values found at those paths; a missing field sorts as null,
    null before numbers, numbers before strings. *)
Inductive bson : Type :=
| BNull
| BNum (z : Z)
| BStr (s : string).

Definition opt_bson {A} (inj : A -> bson) (v : option A) : bson :=
  match v with
  | None => BNull
  | Some a => inj a
  end.

Definition value_at (p : sort_path) (d : Doc) : bson :=
  match p with
  | By_title => opt_bson BStr (title d)
  | By_year => opt_bson BNum (year d)
  | By_latest_episode => opt_bson BNum (latest_episode d)
  | By_rating_votes => opt_bson (fun r => BNum (votes r)) (rating d)
  | By_rating_percentage => opt_bson (fun r => BNum (percentage r)) (rating d)
  | By_rating_watching => opt_bson (fun r => BNum (watching r)) (rating d)
  end.

Definition compare_bson (x y : bson) : comparison :=
  match x, y with
  | BNull, BNull => Eq
  | BNull, _ => Lt
  | _, BNull => Gt
  | BNum a, BNum b => Z.compare a b
  | BNum _, BStr _ => Lt
  | BStr _, BNum _ => Gt
  | BStr a, BStr b => String.compare a b
  end.

(** A sort document, in the order of its keys; the number is the
    direction, [None] when it is [NaN]. *)
Definition SortSpec : Type := list (sort_path * option Z).

Definition direction_ok (o : option Z) : bool :=
  match o with
  | Some 1 | Some (-1) => true
  | _ => false
  end.

Definition directed (o : option Z) (c : comparison) : comparison :=
  match o with
  | Some (-1) => CompOpp c
  | _ => c
  end.

Fixpoint compare_docs (s : SortSpec) (a b : Doc) : comparison :=
  match s with
  | [] => Eq
  | (p, o) :: r =>
      match directed o (compare_bson (value_at p a) (value_at p b)) with
      | Eq => compare_docs r a b
      | c => c
      end
  end.

Definition doc_leb (s : SortSpec) (a b : Doc) : bool :=
  match compare_docs s a b with
  | Gt => false
  | _ => true
  end.

(** The store leaves the relative order of documents with equal keys
    open; the model keeps them in collection order. *)
Fixpoint insert (s : SortSpec) (x : Doc) (l : list Doc) : list Doc :=
  match l with
  | [] => [x]
  | y :: t => if doc_leb s x y then x :: y :: t else y :: insert s x t
  end.

Fixpoint sort_docs (s : SortSpec) (l : list Doc) : list Doc :=
  match l with
  | [] => []
  | x :: t => insert s x (sort_docs s t)
  end.

(** *** Stages *)

Inductive stage : Type :=
| Match (q : Query)
| Project (p : Projection)
| Sort (s : SortSpec)
| Skip (n : option Z)
| Limit (n : option Z)
| Sample (size : nat).

Inductive error : Type :=
| Unreachable          (* the store cannot be reached *)
| BadSortOrder         (* a direction other than 1 and -1 *)
| BadSkip              (* a skip that is not a non-negative integer *)
| BadLimit.            (* a limit that is not a positive integer *)

(** The collection, whether the store answers at all, and the number
    that the store draws for [$sample]. *)
Record Store : Type :=
  { reachable : bool; shows : list Doc; draw : nat }.

Definition rotate {A} (n : nat) (l : list A) : list A :=
  skipn n l ++ firstn n l.

(** [$sample] takes its documents from a position drawn by the store;
    for the size 1 that the controller asks for, every document of a
    non-empty input is a possible result. *)
Definition sample (size drawn : nat) (l : list Doc) : list Doc :=
  firstn size (rotate (drawn mod Nat.max 1 (List.length l)) l).

Definition run_stage (drawn : nat) (st : stage) (l : list Doc)
  : error + list Doc :=
  match st with
  | Match q => inr (filter (matches q) l)
  | Project p => inr (map (project p) l)
  | Sort s =>
      if forallb (fun kv => direction_ok (snd kv)) s
      then inr (sort_docs s l) else inl BadSortOrder
  | Skip (Some n) =>
      if 0 <=? n then inr (skipn (Z.to_nat n) l) else inl BadSkip
  | Skip None => inl BadSkip
  | Limit (Some n) =>
      if 0 <? n then inr (firstn (Z.to_nat n) l) else inl BadLimit
  | Limit None => inl BadLimit
  | Sample size => inr (sample size drawn l)
  end.

Fixpoint run_stages (drawn : nat) (sts : list stage) (l : list Doc)
  : error + list Doc :=
  match sts with
  | [] => inr l
  | st :: r =>
      match run_stage drawn st l with
      | inl e => inl e
      | inr l' => run_stages drawn r l'
      end
  end.

(** [Show.aggregate(stages).exec()] *)
Definition aggregate (db : Store) (sts : list stage) : error + list Doc :=
  if reachable db then run_stages (draw db) sts (shows db)
  else inl Unreachable.

(** [Show.count(q).exec()] *)
Definition count (db : Store) (q : Query) : error + Z :=
  if reachable db
  then inr (Z.of_nat (List.length (filter (matches q) (shows db))))
  else inl Unreachable.

(** [Show.findOne(q, p).exec()]: the first match, projected, or null. *)
Definition findOne (db : Store) (q : Query) (p : Projection)
  : error + option Doc :=
  if reachable db
  then inr (option_map (project p) (find (matches q) (shows db)))
  else inl Unreachable.

End Mongo.

(* ===================================================================== *)
(** ** Requests, responses and promise chains *)
(* ===================================================================== *)

Module Express.

Import Mongo.

(** [req.params] *)
Record Params : Type :=
  { page : string; id : string }.

(** [req.query]; a parameter that the request does not carry is
    [None], that is [undefined]. *)
Record QueryString : Type :=
  { order : option string;
    keywords : option string;
    sort : option string;
    genre : option string }.

Record Request : Type :=
  { params : Params; query : QueryString }.

(** What [res.json] is given. *)
Inductive body : Type :=
| Pages (l : list string)
| Docs (l : list Doc)
| OneDoc (d : Doc)
| Null
| Undefined.

(** What a promise is rejected with. *)
Inductive thrown : Type :=
| StoreError (e : error)
| TypeError (msg : string).

(** The calls that a handler makes on [res] and on [next]. *)
Inductive call : Type :=
| ResJson (b : body)
| Next (e : thrown).

(** A promise chain: from the calls made so far to the calls made in
    the end, settled with a value or rejected. *)
Definition P (A : Type) : Type := list call -> list call * (thrown + A).

(** [.exec()] *)
Definition exec {A} (r : error + A) : P A :=
  fun log =>
    match r with
    | inl e => (log, inl (StoreError e))
    | inr a => (log, inr a)
    end.

(** [p.then(f)] *)
Definition then_ {A B} (p : P A) (f : A -> P B) : P B :=
  fun log =>
    match p log with
    | (log', inr a) => f a log'
    | (log', inl e) => (log', inl e)
    end.

(** [p.catch(h)] *)
Definition catch_ {A} (p : P A) (h : thrown -> P A) : P A :=
  fun log =>
    match p log with
    | (log', inl e) => h e log'
    | settled => settled
    end.

Definition res_json (b : body) : P unit :=
  fun log => ((log ++ [ResJson b])%list, inr tt).

Definition next (e : thrown) : P unit :=
  fun log => ((log ++ [Next e])%list, inr tt).

(** [res.jfson(err)]: the response object has no such method, so the
    call throws before anything is sent. *)
Definition res_jfson (e : thrown) : P unit :=
  fun log => (log, inl (TypeError "res.jfson is not a function")).

(** A handler run on a fresh request. *)
Definition handle {A} (p : P A) : list call * (thrown + A) := p [].

End Express.

Notation "p '.then' f" := (Express.then_ p f)
  (at level 50, left associativity, only parsing).
Notation "p '.catch' h" := (Express.catch_ p h)
  (at level 50, left associativity, only parsing).

(* ===================================================================== *)
(** ** The controller *)
(* ===================================================================== *)

Module ShowController.

Import Regex Mongo Express.

(** [ShowController.query] *)
Definition query : Query :=
  {| id_is := None;
     num_seasons_gt := Some 0;
     title_regex := None;
     genres_has := None |}.

(** [ShowController._projections] *)
Definition _projections : Projection :=
  [ (F_id, true); (Fimdb_id, true); (Ftvdb_id, true); (Ftitle, true);
    (Fyear, true); (Fslug, true); (Fgenres, true); (Fimages, true);
    (Frating, true); (Fnum_seasons, true) ].

(** [Math.ceil(count / pageSize)] *)
Definition ceil_div (count size : Z) : Z := - ((- count) / size).

(** [for (let i = 1; i < pages + 1; i++) docs.push(`shows/${i}`)];
    [fuel] bounds the number of rounds. *)
Fixpoint push_pages (fuel : nat) (pages i : Z) (docs : list string)
  : list string :=
  match fuel with
  | O => docs
  | S f =>
      if i <? pages + 1
      then push_pages f pages (i + 1)
             (docs ++ [("shows/" ++ Js.show_nat (Z.to_nat i))%string])%list
      else docs
  end.

(** [data.order ? parseInt(data.order, 10) : -1] *)
Definition order_of (data : QueryString) : option Z :=
  match order data with
  | Some o => if Js.truthy (Some o) then Js.parseInt o else Some (-1)
  | None => Some (-1)
  end.

(** The words of [data.keywords], each stripped and lower-cased. *)
Definition words_of (kw : string) : list string :=
  map (fun w => Js.toLowerCase (Js.strip_non_alnum w)) (Js.split_space kw).

(** [(?=.*\bw\b)], for a word [w] of letters and digits.
    [RegExp.escape] is defined outside the sources; in such a word there
    is nothing to escape, and the pattern text reads back as the word
    spelled out. *)
Definition lookahead (w : string) : regex :=
  RLook (RSeq (RStar dot) (RSeq RWordB (RSeq (lit w) RWordB))).

(** [^], one lookahead for each word, then [.*]. *)
Definition keywords_regex (kw : string) : regex :=
  RSeq (fold_left (fun re w => RSeq re (lookahead w)) (words_of kw) RBol)
       (RStar dot).

Definition re_all : regex := lit "all".
Definition re_name : regex := lit "name".
Definition re_rating : regex := lit "rating".
Definition re_trending : regex := lit "trending".
Definition re_updated : regex := lit "updated".
Definition re_year : regex := lit "year".
Definition re_science_fiction : regex :=
  RSeq (lit "science") (RSeq dash_or_space (lit "fiction")).
Definition re_sci_fi : regex :=
  RSeq (lit "sci") (RSeq dash_or_space (lit "fi")).

(** [s.match(/.../i)] is not null. *)
Definition matches_i (re : regex) (s : string) : bool := test true re s.

(** The sort document of a page request. *)
Definition sort_of (data : QueryString) : SortSpec :=
  let o := order_of data in
  let sort := [ (By_rating_votes, o); (By_rating_percentage, o);
                (By_rating_watching, o) ] in
  match Express.sort data with
  | Some s =>
      if Js.truthy (Some s) then
        let sort := if matches_i re_name s then [ (By_title, o) ] else sort in
        let sort := if matches_i re_rating s
                    then [ (By_rating_percentage, o); (By_rating_votes, o) ]
                    else sort in
        let sort := if matches_i re_trending s
                    then [ (By_rating_watching, o) ] else sort in
        let sort := if matches_i re_updated s
                    then [ (By_latest_episode, o) ] else sort in
        let sort := if matches_i re_year s then [ (By_year, o) ] else sort in
        sort
      else sort
  | None => sort
  end.

(** The genre that the query asks for, if it asks for one. *)
Definition genre_of (data : QueryString) : option string :=
  match genre data with
  | Some g =>
      if Js.truthy (Some g) && negb (matches_i re_all g) then
        let g' := if matches_i re_science_fiction g || matches_i re_sci_fi g
                  then "science-fiction" else g in
        Some (Js.toLowerCase g')
      else None
  | None => None
  end.

(** The title constraint: the pattern, with the [i] of [$options]; the
    [g] that stands next to it means nothing to a match. *)
Definition title_of (data : QueryString) : option (regex * bool) :=
  match keywords data with
  | Some kw =>
      if Js.truthy (Some kw) then Some (keywords_regex kw, true) else None
  | None => None
  end.

(** The query document of a page request: a copy of [query], with
    [title] and [genres] set when the request asks for them. *)
Definition query_of (data : QueryString) : Query :=
  {| id_is := id_is query;
     num_seasons_gt := num_seasons_gt query;
     title_regex := title_of data;
     genres_has := genre_of data |}.

Section Handlers.

(** [pageSize] of [config/constants], which is not part of the
    sources: a positive number of entries. *)
Variable pageSize : positive.

Definition getShows (req : Request) (db : Store) : P unit :=
  (exec (count db query) .then (fun count =>
     let pages := ceil_div count (Z.pos pageSize) in
     let docs := push_pages (Z.to_nat pages) pages 1 [] in
     res_json (Pages docs)))
  .catch (fun err => next err).

Definition getPage (req : Request) (db : Store) : P unit :=
  let page := Js.minus (Js.stringToNumber (page (params req))) 1 in
  let offset := Js.times page (Z.pos pageSize) in
  if matches_i re_all (Express.page (params req)) then
    (exec (aggregate db
             [ Match query;
               Project _projections;
               Sort [ (By_title, Some (-1)) ] ])
       .then (fun docs => res_json (Docs docs)))
    .catch (fun err => next err)
  else
    let data := Express.query req in
    (exec (aggregate db
             [ Sort (sort_of data);
               Match (query_of data);
               Project _projections;
               Skip (Js.integer_of offset);
               Limit (Some (Z.pos pageSize)) ])
       .then (fun docs => res_json (Docs docs)))
    .catch (fun err => res_jfson err).

Definition getShow (req : Request) (db : Store) : P unit :=
  (exec (findOne db
           {| id_is := Some (id (params req));
              num_seasons_gt := None;
              title_regex := None;
              genres_has := None |}
           [ (Flatest_episode, false) ])
     .then (fun docs =>
              res_json (match docs with
                        | Some d => OneDoc d
                        | None => Null
                        end)))
  .catch (fun err => next err).

Definition getRandomShow (req : Request) (db : Store) : P unit :=
  (exec (aggregate db [ Sample 1; Limit (Some 1) ])
     .then (fun docs =>
              res_json (match docs with
                        | d :: _ => OneDoc d
                        | [] => Undefined
                        end)))
  .catch (fun err => next err).

End Handlers.

End ShowController.

(* ===================================================================== *)
(** ** The specification's own words *)
(* ===================================================================== *)

(** What the specification of the query service says in terms of its
    own, to be compared with the controller. *)
Module Spec.

Import Regex Mongo Express.

(** The standing invariant of the catalog: [num_seasons > 0]. *)
Definition qualifies (d : Doc) : bool :=
  match num_seasons d with
  | Some n => 0 <? n
  | None => false
  end.

(** The store with the entries outside the invariant taken away. *)
Definition only_qualifying (db : Store) : Store :=
  {| reachable := reachable db;
     shows := filter qualifies (shows db);
     draw := draw db |}.

(** A request without its genre, and without its keywords. *)
Definition without_genre (data : QueryString) : QueryString :=
  {| order := order data; keywords := keywords data;
     sort := Express.sort data; genre := None |}.

Definition without_keywords (data : QueryString) : QueryString :=
  {| order := order data; keywords := None;
     sort := Express.sort data; genre := genre data |}.

(** The store as it is when the sample is drawn at [n]. *)
Definition drawing (n : nat) (db : Store) : Store :=
  {| reachable := reachable db; shows := shows db; draw := n |}.

(** The catalog-facing fields of an entry: its identifiers, its title,
    year, slug, genres, images and rating, and its number of seasons. *)
Definition catalog_facing (d : Doc) : Doc :=
  {| _id := _id d; imdb_id := imdb_id d; tvdb_id := tvdb_id d;
     title := title d; year := year d; slug := slug d;
     genres := genres d; images := images d; rating := rating d;
     num_seasons := num_seasons d;
     latest_episode := None; episodes := None |}.

(** What is skipped before the page of a numeric index:
    [(index-1)*pageSize], when that is a whole number. *)
Definition skipped (pageSize : Z) (index : Js.number) : option Z :=
  Js.integer_of (Js.times (Js.minus index 1) pageSize).


(** The page identifiers [1..n], as the service names them. *)
Definition page_id (i : nat) : string := "shows/" ++ Js.show_nat i.

Definition page_ids (n : nat) : list string := map page_id (seq 1 n).

(** Equal up to the case of the letters A-Z. *)
Definition fold (l : list ascii) : list ascii := map Js.fold_char l.

Definition same_text (s t : string) : Prop :=
  fold (list_ascii_of_string s) = fold (list_ascii_of_string t).

(** [s] has a piece that reads [t], whatever the case. *)
Definition contains_text (t s : string) : Prop :=
  exists pre mid post,
    list_ascii_of_string s = (pre ++ mid ++ post)%list
    /\ fold mid = fold (list_ascii_of_string t).

(** Tokenized on whitespace: the maximal runs of characters other than
    white space. *)
Fixpoint tokens_from (cur : string) (s : string) : list string :=
  let flush := match cur with EmptyString => [] | _ => [cur] end in
  match s with
  | EmptyString => flush
  | String a r =>
      if Js.is_space a then (flush ++ tokens_from EmptyString r)%list
      else tokens_from (cur ++ String a EmptyString) r
  end.

Definition tokens (s : string) : list string := tokens_from EmptyString s.

(** Sanitized to alphanumeric-only characters and lower-cased. *)
Definition sanitize (t : string) : string :=
  Js.toLowerCase (Js.strip_non_alnum t).

Fixpoint starts_with (w l : list ascii) : option (list ascii) :=
  match w, l with
  | [], _ => Some l
  | x :: w', a :: l' =>
      if (Js.fold_char x =? Js.fold_char a)%char then starts_with w' l'
      else None
  | _ :: _, [] => None
  end.

(** [w] stands in the text as a whole word: whatever the case, and
    with no word character right before it or right after it. *)
Fixpoint word_in (w : list ascii) (before : option ascii) (l : list ascii)
  : bool :=
  (match before with Some a => negb (Js.is_word a) | None => true end
   && match starts_with w l with
      | Some rest => negb (word_at rest)
      | None => false
      end)
  || match l with
     | [] => false
     | a :: r => word_in w (Some a) r
     end.

(** A title matches when it contains every sanitized token as a whole
    word. *)
Definition keywords_match (input title : string) : bool :=
  forallb
    (fun t => word_in (list_ascii_of_string (sanitize t)) None
                (list_ascii_of_string title))
    (tokens input).

Definition not_line_feed (a : ascii) : Prop := (a =? "010")%char = false.

(** The characters that a string read as a number can hold: white
    space, digits, signs, the point, and the letters of the exponent, of
    the radix prefixes, of the digits of radix 16 and of [Infinity]. *)
Definition numeric_char (a : ascii) : bool :=
  Js.is_space a || Js.is_digit a
  || existsb (Ascii.eqb (Js.fold_char a)) (list_ascii_of_string "+-.abcdefxointy").

Fixpoint numeric (s : string) : bool :=
  match s with
  | EmptyString => true
  | String a r => numeric_char a && numeric r
  end.

(** A character of a sanitized word: a digit or a small letter. *)
Definition plain (a : ascii) : Prop :=
  Js.is_alnum a = true /\ Js.fold_char a = a.

(** The text up to its first line feed. *)
Fixpoint first_line (l : list ascii) : list ascii :=
  match l with
  | [] => []
  | a :: r => if (a =? "010")%char then [] else a :: first_line r
  end.

(** The way a word of the keyword pattern is found in a line: an empty
    word asks for no more than a word character somewhere; any other
    word stands there whatever the case, with no word character right
    before it or right after it. *)
Definition occurs_as_word (w : string) (line : list ascii) : Prop :=
  match w with
  | EmptyString => exists a, In a line /\ Js.is_word a = true
  | _ =>
      exists pre mid post,
        line = (pre ++ mid ++ post)%list
        /\ fold mid = list_ascii_of_string w
        /\ word_at (rev pre) = false
        /\ word_at post = false
  end.

(** A pattern whose classes do not tell a capital from its small
    letter. *)
Fixpoint caseless (r : regex) : Prop :=
  match r with
  | RSet p => forall a, p (Js.fold_char a) = p a
  | RSeq r1 r2 => caseless r1 /\ caseless r2
  | RStar r1 | RLook r1 => caseless r1
  | REps | RLit _ | RBol | RWordB => True
  end.

Definition fold_cursor (c : cursor) : cursor := (fold (fst c), fold (snd c)).

(** The text spells "science fiction" or "sci-fi": the two parts,
    whatever the case, with a dash or a white space in between. *)
Definition spells (first second : string) (s : string) : Prop :=
  exists pre x y z post,
    list_ascii_of_string s = (pre ++ x ++ y :: z ++ post)%list
    /\ fold x = fold (list_ascii_of_string first)
    /\ ((y =? "-")%char || Js.is_space y = true)
    /\ fold z = fold (list_ascii_of_string second).

(** *** The filters and the sort of a page, in the specification's
    words *)

(** [s] has a piece that reads [t], whatever the case: the test. *)
Fixpoint find_text (t l : list ascii) : bool :=
  match starts_with t l with
  | Some _ => true
  | None => match l with
            | [] => false
            | _ :: r => find_text t r
            end
  end.

Definition has_text (t s : string) : bool :=
  find_text (list_ascii_of_string t) (list_ascii_of_string s).










(** In the order of a sort document. *)
Definition ordered (s : SortSpec) : list Doc -> Prop :=
  StronglySorted (fun a b => doc_leb s a b = true).

(** Ordered by title, greatest first. *)
Definition title_desc (a b : Doc) : Prop :=
  compare_bson (value_at By_title b) (value_at By_title a) <> Gt.

(** A comparison that orders: reversing the arguments reverses the
    answer, equal elements compare alike, and [Lt] is transitive. *)
Record Comparator {A : Type} (cmp : A -> A -> comparison) : Prop :=
  { cmp_opp : forall a b, cmp a b = CompOpp (cmp b a);
    cmp_eq_l : forall a b c, cmp a b = Eq -> cmp a c = cmp b c;
    cmp_lt_trans : forall a b c, cmp a b = Lt -> cmp b c = Lt -> cmp a c = Lt }.

Arguments cmp_opp {A cmp} _ a b.
Arguments cmp_eq_l {A cmp} _ a b c _.
Arguments cmp_lt_trans {A cmp} _ a b c _ _.

(** A handler of page requests lists in full on a page parameter: from
    a store that answers it sends every qualifying entry, each one once,
    in its catalog-facing form, by title from the greatest to the least,
    and it sends the same whatever the keywords, the genre, the sort and
    the order of the request. *)
Definition lists_in_full (handler : Request -> Store -> P unit) (p : string)
  : Prop :=
  forall (req : Request) (db : Store),
    page (params req) = p ->
    reachable db = true ->
    exists docs,
      Permutation docs (map catalog_facing (filter qualifies (shows db)))
      /\ StronglySorted title_desc docs
      /\ forall data,
          handle (handler {| params := params req; Express.query := data |} db)
          = ([ResJson (Docs docs)], inr tt).

End Spec.

(* ===================================================================== *)
(** ** A small catalog *)
(* ===================================================================== *)

(** Concrete documents, stores and requests on which the statements
    below are exercised. *)
Module Sample.

Import Mongo Express.

Definition show (key name : string) (released : Z) (tags : list string)
           (score : Rating) (seasons updated : Z) : Doc :=
  {| _id := Some key;
     imdb_id := Some key;
     tvdb_id := None;
     title := Some name;
     year := Some released;
     slug := Some (Js.toLowerCase name);
     genres := Some tags;
     images := Some [];
     rating := Some score;
     num_seasons := Some seasons;
     latest_episode := Some updated;
     episodes := Some [] |}.

Definition thrones : Doc :=
  show "tt0944947" "Game of Thrones" 2011 ["drama"; "fantasy"]
       {| votes := 900; percentage := 93; watching := 40 |} 8 1558300000.

Definition walking : Doc :=
  show "tt1520211" "The Walking Dead" 2010 ["drama"; "horror"]
       {| votes := 700; percentage := 81; watching := 12 |} 9 1554000000.

Definition expanse : Doc :=
  show "tt3230854" "The Expanse" 2015 ["science-fiction"; "drama"]
       {| votes := 300; percentage := 88; watching := 7 |} 3 1530000000.

(** An entry that has been announced and has no season yet. *)
Definition pilot : Doc :=
  show "tt0000001" "Unaired" 2018 ["comedy"]
       {| votes := 0; percentage := 0; watching := 0 |} 0 0.

Definition catalog : Store :=
  {| reachable := true; shows := [thrones; pilot; walking; expanse]; draw := 1 |}.

Definition empty_catalog : Store :=
  {| reachable := true; shows := []; draw := 0 |}.

Definition unreachable_catalog : Store :=
  {| reachable := false; shows := [thrones; walking]; draw := 0 |}.

(** Two keywords with a tabulation in between. *)
Definition tabbed : string := "walking" ++ String "009" "dead".

(** Two more entries, and one that has been announced under a title
    that the search below would find. *)
Definition wire : Doc :=
  show "tt0306414" "The Wire" 2002 ["drama"; "crime"]
       {| votes := 800; percentage := 94; watching := 5 |} 5 1205000000.

Definition office : Doc :=
  show "tt0386676" "The Office" 2005 ["comedy"]
       {| votes := 600; percentage := 85; watching := 30 |} 9 1368000000.

Definition announced : Doc :=
  show "tt0000002" "The Peripheral" 2001 ["drama"]
       {| votes := 0; percentage := 0; watching := 0 |} 0 0.

Definition library : Store :=
  {| reachable := true;
     shows := [thrones; pilot; walking; expanse; wire; office; announced];
     draw := 2 |}.

(** A search: the dramas with "the" in the title, oldest first. *)
Definition search : QueryString :=
  {| order := Some "1"; keywords := Some "the"; sort := Some "year";
     genre := Some "Drama" |}.

(** Keywords that no title of the catalog holds. *)
Definition nowhere : QueryString :=
  {| order := None; keywords := Some "zzz"; sort := None; genre := None |}.

Definition no_parameters : QueryString :=
  {| order := None; keywords := None; sort := None; genre := None |}.

Definition request (p : string) (data : QueryString) : Request :=
  {| params := {| page := p; id := "tt0944947" |}; query := data |}.

Definition request_for (key : string) : Request :=
  {| params := {| page := "1"; id := key |}; query := no_parameters |}.

End Sample.

(* ===================================================================== *)
(** ** Reading answers, writing requests *)
(* ===================================================================== *)

(** What is needed to speak of several requests at once: the entries or
    the page identifiers that an answer carries, and the requests for
    the page of a given index. *)
Module Pages.

Import Regex Mongo Express ShowController.

(** The entries that a handler has sent, if it has sent a list of
    entries and nothing else. *)
Definition sent (r : list call * (thrown + unit)) : list Doc :=
  match fst r with
  | [ResJson (Docs l)] => l
  | _ => []
  end.

(** The page identifiers that a handler has sent. *)
Definition listed (r : list call * (thrown + unit)) : list string :=
  match fst r with
  | [ResJson (Pages l)] => l
  | _ => []
  end.

(** How a chain ends when its rejection handler calls [res.jfson]:
    nothing has been called on [res] or [next], and the chain is
    rejected. *)
Definition unanswered : list call * (thrown + unit) :=
  ([], inl (TypeError "res.jfson is not a function")).

(** A handler that has ended fulfilled after one call: [next] with the
    error of the store when it cannot be reached, [res.json]
    otherwise. *)
Definition answered_once (db : Store) (r : list call * (thrown + unit)) : Prop :=
  exists c,
    r = ([c], inr tt)
    /\ (reachable db = false -> c = Next (StoreError Unreachable))
    /\ (reachable db = true -> exists b, c = ResJson b).

(** The request for the page whose index is written as [getShows]
    writes it. *)
Definition page_request (i : nat) (data : QueryString) : Request :=
  {| params := {| page := Js.show_nat i; id := EmptyString |};
     Express.query := data |}.

Definition all_request (data : QueryString) : Request :=
  {| params := {| page := "all"; id := EmptyString |};
     Express.query := data |}.

Definition with_keywords (kw : string) (data : QueryString) : QueryString :=
  {| order := order data; keywords := Some kw;
     sort := Express.sort data; genre := genre data |}.

Definition with_genre (g : string) (data : QueryString) : QueryString :=
  {| order := order data; keywords := keywords data;
     sort := Express.sort data; genre := Some g |}.

(** The offset and the stages of the pipeline of a numbered page, and
    the stages of the full listing, as [getPage] writes them. *)
Definition offset_of (pageSize : positive) (req : Request) : option Z :=
  Js.integer_of
    (Js.times (Js.minus (Js.stringToNumber (page (params req))) 1)
       (Z.pos pageSize)).

Definition numbered_stages (pageSize : positive) (req : Request) : list stage :=
  [ Sort (sort_of (Express.query req));
    Match (query_of (Express.query req));
    Project _projections;
    Skip (offset_of pageSize req);
    Limit (Some (Z.pos pageSize)) ].

Definition full_stages : list stage :=
  [ Match query; Project _projections; Sort [ (By_title, Some (-1)) ] ].

(** A request that asks for no keyword and no genre. *)
Definition unfiltered (data : QueryString) : Prop :=
  keywords data = None /\ genre data = None.

(** The number of entries that the query of a request selects. *)
Definition selected (data : QueryString) (db : Store) : Z :=
  Z.of_nat (List.length (filter (matches (query_of data)) (shows db))).

(** The entries that the query of a request selects, in the order of
    its sort, as they are sent. *)
Definition listing (data : QueryString) (db : Store) : list Doc :=
  map (project _projections)
    (sort_docs (sort_of data) (filter (matches (query_of data)) (shows db))).

(** A string in which every capital A-Z is replaced by its small
    letter. *)
Fixpoint fold_string (s : string) : string :=
  match s with
  | EmptyString => EmptyString
  | String a r => String (Js.fold_char a) (fold_string r)
  end.

(** The keywords without the characters that are neither a letter, a
    digit nor a space. *)
Fixpoint drop_marks (s : string) : string :=
  match s with
  | EmptyString => EmptyString
  | String a r =>
      if Js.is_alnum a || (a =? " ")%char then String a (drop_marks r)
      else drop_marks r
  end.

(** The sort paths that the projection leaves in an entry. *)
Definition visible_path (p : sort_path) : bool :=
  match p with
  | By_latest_episode => false
  | _ => true
  end.

Definition visible (s : SortSpec) : bool :=
  forallb (fun kv => visible_path (fst kv)) s.

(** The default sort document, in a given direction. *)
Definition default_sort (o : option Z) : SortSpec :=
  [ (By_rating_votes, o); (By_rating_percentage, o); (By_rating_watching, o) ].

End Pages.

(* ===================================================================== *)
(** ** Properties *)
(* ===================================================================== *)

Import Regex Mongo Express ShowController.

(** *** Lists *)

Lemma find_first_unique {A} (p : A -> bool) (l : list A) (d : A) :
  In d l -> p d = true ->
  (forall d', In d' l -> p d' = true -> d' = d) ->
  find p l = Some d.
Proof.
  induction l as [|x l IH]; simpl; intros Hin Hp Huniq; [contradiction|].
  destruct (p x) eqn:Hx.
  - f_equal. apply Huniq; auto.
  - destruct Hin as [->|Hin]; [congruence|].
    apply IH; auto.
Qed.

Lemma find_nothing {A} (p : A -> bool) (l : list A) :
  (forall d, In d l -> p d = false) -> find p l = None.
Proof.
  induction l as [|x l IH]; simpl; intros H; [reflexivity|].
  rewrite (H x) by auto. apply IH. auto.
Qed.

Lemma in_firstn {A} (n : nat) (l : list A) (x : A) : In x (firstn n l) -> In x l.
Proof.
  intros H. rewrite <- (firstn_skipn n l). apply in_or_app. now left.
Qed.

Lemma in_skipn {A} (n : nat) (l : list A) (x : A) : In x (skipn n l) -> In x l.
Proof.
  intros H. rewrite <- (firstn_skipn n l). apply in_or_app. now right.
Qed.

(** *** Page identifiers *)

Lemma ceil_div_bounds (c p : Z) :
  0 < p -> p * (ceil_div c p - 1) < c <= p * ceil_div c p.
Proof.
  intros Hp. unfold ceil_div.
  pose proof (Z_div_mod_eq_full (- c) p) as E.
  pose proof (Z.mod_pos_bound (- c) p Hp) as B.
  nia.
Qed.

Lemma ceil_div_nonneg (c p : Z) : 0 <= c -> 0 < p -> 0 <= ceil_div c p.
Proof.
  intros Hc Hp. pose proof (ceil_div_bounds c p Hp). nia.
Qed.

Lemma push_pages_seq (fuel : nat) (pages i : Z) (docs : list string) :
  1 <= i -> pages + 1 - i <= Z.of_nat fuel ->
  push_pages fuel pages i docs
  = (docs ++ map Spec.page_id
               (seq (Z.to_nat i) (Z.to_nat (pages + 1 - i))))%list.
Proof.
  revert i docs. induction fuel as [|f IH]; intros i docs Hi Hfuel.
  - simpl. replace (Z.to_nat (pages + 1 - i)) with O by lia.
    simpl. now rewrite app_nil_r.
  - simpl. destruct (Z.ltb_spec i (pages + 1)) as [Hlt|Hge].
    + rewrite IH by lia.
      replace (Z.to_nat (pages + 1 - i)) with (S (Z.to_nat (pages + 1 - (i + 1)))) by lia.
      replace (Z.to_nat (i + 1)) with (S (Z.to_nat i)) by lia.
      simpl. now rewrite <- app_assoc.
    + replace (Z.to_nat (pages + 1 - i)) with O by lia.
      simpl. now rewrite app_nil_r.
Qed.

Lemma matches_query_qualifies (d : Doc) :
  matches query d = Spec.qualifies d.
Proof.
  unfold matches, Spec.qualifies, query; simpl.
  destruct (num_seasons d); simpl; [|reflexivity].
  now rewrite !andb_true_r.
Qed.

Lemma filter_query_qualifies (l : list Doc) :
  filter (matches query) l = filter Spec.qualifies l.
Proof. apply filter_ext, matches_query_qualifies. Qed.

(** C5. [getShows] answers with the page identifiers [shows/1] to
    [shows/n], in this order, where [n] is the ceiling of the number of
    qualifying entries over the page size: [n] identifiers, with
    [p * (n - 1) < c <= p * n]. *)
Theorem getShows_lists_ceil_pages (pageSize : positive) (req : Request) (db : Store) :
  reachable db = true ->
  exists n : nat,
    handle (getShows pageSize req db) = ([ResJson (Pages (Spec.page_ids n))], inr tt)
    /\ List.length (Spec.page_ids n) = n
    /\ Z.of_nat n = ceil_div (Z.of_nat (List.length (filter Spec.qualifies (shows db))))
                             (Z.pos pageSize)
    /\ Z.pos pageSize * (Z.of_nat n - 1)
       < Z.of_nat (List.length (filter Spec.qualifies (shows db)))
       <= Z.pos pageSize * Z.of_nat n.
Proof.
  intros Hup.
  set (c := Z.of_nat (List.length (filter Spec.qualifies (shows db)))).
  assert (Hc : 0 <= c) by (unfold c; lia).
  pose proof (ceil_div_nonneg c (Z.pos pageSize) Hc (Pos2Z.is_pos pageSize)) as Hn.
  pose proof (ceil_div_bounds c (Z.pos pageSize) (Pos2Z.is_pos pageSize)) as Hb.
  exists (Z.to_nat (ceil_div c (Z.pos pageSize))).
  repeat split.
  - unfold handle, getShows, catch_, then_, exec, count, res_json.
    rewrite Hup, filter_query_qualifies. fold c. simpl.
    rewrite push_pages_seq by lia.
    unfold Spec.page_ids. simpl.
    now replace (ceil_div c (Z.pos pageSize) + 1 - 1) with (ceil_div c (Z.pos pageSize)) by lia.
  - unfold Spec.page_ids. now rewrite length_map, length_seq.
  - lia.
  - rewrite Z2Nat.id by lia. lia.
  - rewrite Z2Nat.id by lia. lia.
Qed.

Lemma getShows_lists_ceil_pages_witness :
  exists n : nat,
    handle (getShows 2 (Sample.request "1" Sample.no_parameters) Sample.catalog)
    = ([ResJson (Pages (Spec.page_ids n))], inr tt)
    /\ List.length (Spec.page_ids n) = n
    /\ Z.of_nat n = ceil_div (Z.of_nat (List.length (filter Spec.qualifies (shows Sample.catalog)))) 2
    /\ 2 * (Z.of_nat n - 1)
       < Z.of_nat (List.length (filter Spec.qualifies (shows Sample.catalog)))
       <= 2 * Z.of_nat n.
Proof.
  apply (@getShows_lists_ceil_pages 2 (Sample.request "1" Sample.no_parameters)
           Sample.catalog).
  reflexivity.
Defined.

(** *** One show *)

Lemma matches_id (i : string) (d : Doc) :
  matches {| id_is := Some i; num_seasons_gt := None;
             title_regex := None; genres_has := None |} d = true
  <-> _id d = Some i.
Proof.
  unfold matches; simpl. rewrite !andb_true_r.
  destruct (_id d) as [j|]; simpl.
  - rewrite String.eqb_eq. split; congruence.
  - split; discriminate.
Qed.

(** C8. [getShow] answers with the entry whose [_id] is the requested
    one, with [latest_episode] left out and every other field as stored;
    when no entry has that id it answers with null, and nothing is
    raised. *)
Theorem getShow_entry_or_null (req : Request) (db : Store) :
  reachable db = true ->
  (forall d,
      In d (shows db) -> _id d = Some (id (params req)) ->
      (forall d', In d' (shows db) -> _id d' = Some (id (params req)) -> d' = d) ->
      handle (getShow req db)
      = ([ResJson (OneDoc {| _id := _id d;
                             imdb_id := imdb_id d;
                             tvdb_id := tvdb_id d;
                             title := title d;
                             year := year d;
                             slug := slug d;
                             genres := genres d;
                             images := images d;
                             rating := rating d;
                             num_seasons := num_seasons d;
                             latest_episode := None;
                             episodes := episodes d |})], inr tt))
  /\ ((forall d, In d (shows db) -> _id d <> Some (id (params req))) ->
      handle (getShow req db) = ([ResJson Null], inr tt)).
Proof.
  intros Hup. split.
  - intros d Hin Hid Huniq.
    unfold handle, getShow, catch_, then_, exec, findOne, res_json.
    rewrite Hup.
    rewrite (@find_first_unique _ _ (shows db) d); auto.
    + now apply matches_id.
    + intros d' Hin' Hm. apply Huniq; auto. now apply matches_id.
  - intros Hnone.
    unfold handle, getShow, catch_, then_, exec, findOne, res_json.
    rewrite Hup, find_nothing; [reflexivity|].
    intros d Hin.
    destruct (matches _ d) eqn:Hm; [|reflexivity].
    apply matches_id in Hm. now apply Hnone in Hin.
Qed.

Lemma getShow_entry_or_null_witness :
  handle (getShow (Sample.request_for "tt3230854") Sample.catalog)
  = ([ResJson (OneDoc {| _id := Some "tt3230854";
                         imdb_id := Some "tt3230854";
                         tvdb_id := None;
                         title := Some "The Expanse";
                         year := Some 2015;
                         slug := Some "the expanse";
                         genres := Some ["science-fiction"; "drama"];
                         images := Some [];
                         rating := Some {| votes := 300; percentage := 88;
                                           watching := 7 |};
                         num_seasons := Some 3;
                         latest_episode := None;
                         episodes := Some [] |})], inr tt).
Proof.
  refine (proj1 (@getShow_entry_or_null (Sample.request_for "tt3230854")
                   Sample.catalog eq_refl) Sample.expanse _ eq_refl _).
  - simpl; auto.
  - simpl. intros d' [<-|[<-|[<-|[<-|[]]]]]; intros H;
      first [reflexivity | discriminate H].
Defined.

(** *** A store that fails *)

Lemma getShows_store_failure (pageSize : positive) (req : Request) (db : Store) :
  reachable db = false ->
  handle (getShows pageSize req db) = ([Next (StoreError Unreachable)], inr tt).
Proof.
  intros Hdown. unfold handle, getShows, catch_, then_, exec, count, next.
  now rewrite Hdown.
Qed.

Lemma getShow_store_failure (req : Request) (db : Store) :
  reachable db = false ->
  handle (getShow req db) = ([Next (StoreError Unreachable)], inr tt).
Proof.
  intros Hdown. unfold handle, getShow, catch_, then_, exec, findOne, next.
  now rewrite Hdown.
Qed.

Lemma getRandomShow_store_failure (req : Request) (db : Store) :
  reachable db = false ->
  handle (getRandomShow req db) = ([Next (StoreError Unreachable)], inr tt).
Proof.
  intros Hdown. unfold handle, getRandomShow, catch_, then_, exec, aggregate, next.
  now rewrite Hdown.
Qed.

Lemma getPage_all_store_failure (pageSize : positive) (req : Request) (db : Store) :
  matches_i re_all (page (params req)) = true ->
  reachable db = false ->
  handle (getPage pageSize req db) = ([Next (StoreError Unreachable)], inr tt).
Proof.
  intros Hall Hdown. unfold handle, getPage. rewrite Hall.
  unfold catch_, then_, exec, aggregate, next.
  now rewrite Hdown.
Qed.

(** C9 (the code departs from it). On a numeric page, a store that
    cannot be reached does not reach [next]: the handler of the
    rejection calls [res.jfson], which does not exist, so the chain ends
    rejected with a [TypeError] and neither [res] nor [next] is called. *)
Theorem getPage_store_failure_throws (pageSize : positive) (req : Request) (db : Store) :
  matches_i re_all (page (params req)) = false ->
  reachable db = false ->
  handle (getPage pageSize req db)
  = ([], inl (TypeError "res.jfson is not a function")).
Proof.
  intros Hall Hdown. unfold handle, getPage. rewrite Hall.
  unfold catch_, then_, exec, aggregate, res_jfson.
  now rewrite Hdown.
Qed.

Lemma getPage_store_failure_throws_witness :
  handle (getPage 50 (Sample.request "1" Sample.no_parameters)
                  Sample.unreachable_catalog)
  = ([], inl (TypeError "res.jfson is not a function")).
Proof.
  apply (@getPage_store_failure_throws 50
           (Sample.request "1" Sample.no_parameters)
           Sample.unreachable_catalog); reflexivity.
Defined.

(** The same happens when the store rejects the pipeline: page 0 asks to
    skip a negative number of entries. *)
Lemma getPage_page_zero_throws :
  handle (getPage 50 (Sample.request "0" Sample.no_parameters) Sample.catalog)
  = ([], inl (TypeError "res.jfson is not a function")).
Proof. reflexivity. Qed.

(** *** A random show *)

(** C10. On a store without entries [getRandomShow] answers with
    [undefined], the first element of an empty sample, and nothing is
    raised. *)
Theorem getRandomShow_empty_store (req : Request) (db : Store) :
  reachable db = true -> shows db = [] ->
  handle (getRandomShow req db) = ([ResJson Undefined], inr tt).
Proof.
  intros Hup Hempty.
  unfold handle, getRandomShow, catch_, then_, exec, aggregate, res_json.
  rewrite Hup, Hempty. simpl.
  unfold sample, rotate. simpl.
  now destruct (draw db mod 1)%nat.
Qed.

Lemma getRandomShow_empty_store_witness :
  handle (getRandomShow (Sample.request_for "tt0944947") Sample.empty_catalog)
  = ([ResJson Undefined], inr tt).
Proof.
  apply (@getRandomShow_empty_store (Sample.request_for "tt0944947")
           Sample.empty_catalog); reflexivity.
Defined.

(** *** Comparisons that order *)

Section ComparatorFacts.

Context {A : Type} (cmp : A -> A -> comparison).
Hypothesis cmp_ok : Spec.Comparator cmp.

Lemma cmp_lt_eq a b c : cmp a b = Lt -> cmp b c = Eq -> cmp a c = Lt.
Proof.
  intros Hab Hbc.
  assert (Hcb : cmp c b = Eq) by (rewrite (Spec.cmp_opp cmp_ok), Hbc; reflexivity).
  rewrite (Spec.cmp_opp cmp_ok), (Spec.cmp_eq_l cmp_ok _ _ a Hcb).
  rewrite (Spec.cmp_opp cmp_ok), Hab. reflexivity.
Qed.

Lemma cmp_not_gt_trans a b c :
  cmp a b <> Gt -> cmp b c <> Gt -> cmp a c <> Gt.
Proof.
  intros Hab Hbc.
  destruct (cmp a b) eqn:Eab; [| |congruence].
  - now rewrite (Spec.cmp_eq_l cmp_ok _ _ c Eab).
  - destruct (cmp b c) eqn:Ebc; [| |congruence].
    + rewrite (cmp_lt_eq _ _ _ Eab Ebc). discriminate.
    + rewrite (Spec.cmp_lt_trans cmp_ok _ _ _ Eab Ebc). discriminate.
Qed.

Lemma cmp_gt_flip a b : cmp a b = Gt -> cmp b a = Lt.
Proof.
  intros H. rewrite (Spec.cmp_opp cmp_ok) in H.
  now destruct (cmp b a).
Qed.

Lemma comparator_on {B : Type} (f : B -> A) :
  Spec.Comparator (fun x y => cmp (f x) (f y)).
Proof.
  split; intros.
  - apply (Spec.cmp_opp cmp_ok).
  - now apply (Spec.cmp_eq_l cmp_ok).
  - now apply (Spec.cmp_lt_trans cmp_ok) with (f b).
Qed.

Lemma comparator_directed (o : option Z) :
  Spec.Comparator (fun x y => directed o (cmp x y)).
Proof.
  assert (Hflip : Spec.Comparator (fun x y => CompOpp (cmp x y))).
  { split.
    - intros a b. now rewrite (Spec.cmp_opp cmp_ok a b).
    - intros a b c H.
      assert (Hab : cmp a b = Eq) by (now destruct (cmp a b)).
      now rewrite (Spec.cmp_eq_l cmp_ok _ _ c Hab).
    - intros a b c Hab Hbc.
      assert (Hba : cmp b a = Lt).
      { apply cmp_gt_flip. now destruct (cmp a b). }
      assert (Hcb : cmp c b = Lt).
      { apply cmp_gt_flip. now destruct (cmp b c). }
      rewrite (Spec.cmp_opp cmp_ok), (Spec.cmp_lt_trans cmp_ok _ _ _ Hcb Hba).
      reflexivity. }
  destruct o as [[|p|p]|]; simpl; try (destruct cmp_ok; split; assumption).
  destruct p; simpl; try (destruct cmp_ok; split; assumption).
  exact Hflip.
Qed.

Lemma comparator_then (cmp' : A -> A -> comparison) :
  Spec.Comparator cmp' ->
  Spec.Comparator (fun x y => match cmp x y with Eq => cmp' x y | c => c end).
Proof.
  intros cmp_ok'. split.
  - intros a b. rewrite (Spec.cmp_opp cmp_ok a b).
    destruct (cmp b a); simpl; auto. apply (Spec.cmp_opp cmp_ok').
  - intros a b c H.
    destruct (cmp a b) eqn:Eab; try discriminate.
    rewrite (Spec.cmp_eq_l cmp_ok _ _ c Eab).
    now rewrite (Spec.cmp_eq_l cmp_ok' _ _ c H).
  - intros a b c Hab Hbc.
    destruct (cmp a b) eqn:Eab; try discriminate.
    + rewrite (Spec.cmp_eq_l cmp_ok _ _ c Eab).
      destruct (cmp b c) eqn:Ebc; try discriminate; auto.
      now apply (Spec.cmp_lt_trans cmp_ok') with b.
    + destruct (cmp b c) eqn:Ebc; try discriminate.
      * now rewrite (cmp_lt_eq _ _ _ Eab Ebc).
      * now rewrite (Spec.cmp_lt_trans cmp_ok _ _ _ Eab Ebc).
Qed.

End ComparatorFacts.

Lemma Z_comparator : Spec.Comparator Z.compare.
Proof.
  split; intros.
  - apply Z.compare_antisym.
  - apply Z.compare_eq in H. now subst.
  - rewrite Z.compare_lt_iff in *. lia.
Qed.

Lemma ascii_compare_refl (a : ascii) : Ascii.compare a a = Eq.
Proof. unfold Ascii.compare. apply N.compare_refl. Qed.

Lemma ascii_compare_lt_trans (a b c : ascii) :
  Ascii.compare a b = Lt -> Ascii.compare b c = Lt -> Ascii.compare a c = Lt.
Proof. unfold Ascii.compare. rewrite !N.compare_lt_iff. lia. Qed.

Lemma string_compare_lt_trans (a b c : string) :
  String.compare a b = Lt -> String.compare b c = Lt -> String.compare a c = Lt.
Proof.
  revert b c. induction a as [|x a IH]; intros [|y b] [|z c]; simpl;
    try congruence.
  destruct (Ascii.compare x y) eqn:Exy; try discriminate;
    destruct (Ascii.compare y z) eqn:Eyz; try discriminate; intros Hab Hbc.
  - apply Ascii.compare_eq_iff in Exy, Eyz. subst.
    rewrite ascii_compare_refl. now apply IH with b.
  - apply Ascii.compare_eq_iff in Exy. subst. now rewrite Eyz.
  - apply Ascii.compare_eq_iff in Eyz. subst. now rewrite Exy.
  - now rewrite (ascii_compare_lt_trans _ _ _ Exy Eyz).
Qed.

Lemma string_comparator : Spec.Comparator String.compare.
Proof.
  split; intros.
  - apply String.compare_antisym.
  - apply String.compare_eq_iff in H. now subst.
  - now apply string_compare_lt_trans with b.
Qed.

Lemma bson_comparator : Spec.Comparator compare_bson.
Proof.
  split.
  - intros [|x|x] [|y|y]; simpl; auto.
    + apply Z.compare_antisym.
    + apply String.compare_antisym.
  - intros [|x|x] [|y|y] c; simpl; try discriminate; auto; intros H.
    + apply Z.compare_eq in H. now subst.
    + apply String.compare_eq_iff in H. now subst.
  - intros [|x|x] [|y|y] [|z|z]; simpl; try discriminate; auto.
    + apply (Spec.cmp_lt_trans Z_comparator).
    + apply (Spec.cmp_lt_trans string_comparator).
Qed.

Lemma compare_docs_comparator (s : SortSpec) : Spec.Comparator (compare_docs s).
Proof.
  induction s as [|[p o] r IH]; simpl.
  - split; intros; auto; discriminate.
  - apply (comparator_then
             (fun a b => directed o (compare_bson (value_at p a) (value_at p b)))).
    + apply (comparator_directed
               (fun a b => compare_bson (value_at p a) (value_at p b))).
      apply (comparator_on _ bson_comparator).
    + exact IH.
Qed.

(** *** Sorting *)

Section SortFacts.

Variable s : SortSpec.

Lemma doc_leb_total a b : doc_leb s a b = false -> doc_leb s b a = true.
Proof.
  unfold doc_leb. destruct (compare_docs s a b) eqn:E; try discriminate.
  intros _. now rewrite (cmp_gt_flip _ (compare_docs_comparator s) _ _ E).
Qed.

Lemma doc_leb_trans a b c :
  doc_leb s a b = true -> doc_leb s b c = true -> doc_leb s a c = true.
Proof.
  unfold doc_leb. intros Hab Hbc.
  pose proof (@cmp_not_gt_trans _ _ (compare_docs_comparator s) a b c) as T.
  destruct (compare_docs s a b), (compare_docs s b c), (compare_docs s a c);
    try discriminate; try reflexivity; exfalso; apply T; congruence.
Qed.

Lemma insert_perm x l : Permutation (x :: l) (insert s x l).
Proof.
  induction l as [|y t IH]; simpl; [reflexivity|].
  destruct (doc_leb s x y); [reflexivity|].
  rewrite perm_swap. now constructor.
Qed.

Lemma sort_docs_perm l : Permutation l (sort_docs s l).
Proof.
  induction l as [|x t IH]; simpl; [reflexivity|].
  rewrite <- insert_perm. now constructor.
Qed.

Lemma insert_ordered x l : Spec.ordered s l -> Spec.ordered s (insert s x l).
Proof.
  unfold Spec.ordered. induction 1 as [|y t Ht IH Hy]; simpl.
  - repeat constructor.
  - destruct (doc_leb s x y) eqn:E.
    + constructor; [now constructor|].
      constructor; [exact E|].
      rewrite Forall_forall in *. intros z Hz.
      apply doc_leb_trans with y; auto.
    + constructor; [exact IH|].
      rewrite Forall_forall in *. intros z Hz.
      apply (Permutation_in _ (Permutation_sym (insert_perm x t))) in Hz.
      destruct Hz as [<-|Hz]; [now apply doc_leb_total|auto].
Qed.

Lemma sort_docs_ordered l : Spec.ordered s (sort_docs s l).
Proof.
  induction l as [|x t IH]; simpl; [constructor|].
  now apply insert_ordered.
Qed.

Variable keep : Doc -> bool.

Lemma filter_insert_drop x l :
  keep x = false -> filter keep (insert s x l) = filter keep l.
Proof.
  intros Hx. induction l as [|y t IH]; simpl.
  - now rewrite Hx.
  - destruct (doc_leb s x y); simpl.
    + now rewrite Hx.
    + now rewrite IH.
Qed.

Lemma insert_below_all x l :
  Forall (fun z => doc_leb s x z = true) l -> insert s x l = x :: l.
Proof.
  intros H. destruct l as [|y t]; simpl; [reflexivity|].
  inversion H; subst. now rewrite H2.
Qed.

Lemma filter_insert_keep x l :
  Spec.ordered s l -> keep x = true ->
  filter keep (insert s x l) = insert s x (filter keep l).
Proof.
  intros Hl Hx. induction Hl as [|y t Ht IH Hy]; simpl.
  - now rewrite Hx.
  - destruct (doc_leb s x y) eqn:E; simpl.
    + rewrite Hx.
      assert (Hall : Forall (fun z => doc_leb s x z = true) (y :: t)).
      { constructor; [exact E|].
        rewrite Forall_forall in *. intros z Hz.
        apply doc_leb_trans with y; auto. }
      symmetry. apply insert_below_all.
      rewrite Forall_forall in *. intros z Hz.
      change (In z (filter keep (y :: t))) in Hz.
      apply filter_In in Hz. apply Hall, Hz.
    + destruct (keep y); simpl.
      * now rewrite E, IH.
      * exact IH.
Qed.

(** Filtering before or after the sort gives the same sequence. *)
Lemma filter_sort_docs l :
  filter keep (sort_docs s l) = sort_docs s (filter keep l).
Proof.
  induction l as [|x t IH]; simpl; [reflexivity|].
  destruct (keep x) eqn:Hx; simpl.
  - rewrite filter_insert_keep; auto using sort_docs_ordered.
    now rewrite IH.
  - now rewrite filter_insert_drop.
Qed.

End SortFacts.

(** *** Pages *)

Lemma sort_of_directions (data : QueryString) :
  forallb (fun kv => direction_ok (snd kv)) (sort_of data)
  = direction_ok (order_of data).
Proof.
  unfold sort_of.
  destruct (Express.sort data) as [s|]; [destruct (Js.truthy (Some s))|];
    repeat match goal with
           | |- context [if ?b then _ else _] => destruct b
           end;
    simpl; destruct (direction_ok (order_of data)); reflexivity.
Qed.

Lemma query_of_qualifies (data : QueryString) (d : Doc) :
  matches (query_of data) d = true -> Spec.qualifies d = true.
Proof.
  unfold matches, query_of, Spec.qualifies; simpl.
  destruct (num_seasons d); simpl.
  - intros H. now destruct (0 <? z).
  - discriminate.
Qed.

Lemma filter_within {A} (p q : A -> bool) (l : list A) :
  (forall x, p x = true -> q x = true) ->
  filter p (filter q l) = filter p l.
Proof.
  intros Hpq. induction l as [|x l IH]; simpl; [reflexivity|].
  destruct (q x) eqn:Hq; simpl.
  - now rewrite IH.
  - destruct (p x) eqn:Hp; [|exact IH].
    apply Hpq in Hp. congruence.
Qed.

(** The projection keeps the catalog-facing fields and nothing else: the
    internal [latest_episode] and the episodes are gone. *)
Lemma projections_fields (d : Doc) :
  project _projections d
  = {| _id := _id d; imdb_id := imdb_id d; tvdb_id := tvdb_id d;
       title := title d; year := year d; slug := slug d;
       genres := genres d; images := images d; rating := rating d;
       num_seasons := num_seasons d;
       latest_episode := None; episodes := None |}.
Proof. reflexivity. Qed.

(** *** The standing invariant *)

Lemma run_stages_after_sort_match (n : nat) (s : SortSpec) (data : QueryString)
      (rest : list stage) (l : list Doc) :
  run_stages n (Sort s :: Match (query_of data) :: rest) (filter Spec.qualifies l)
  = run_stages n (Sort s :: Match (query_of data) :: rest) l.
Proof.
  cbn [run_stages run_stage].
  destruct (forallb _ s); [|reflexivity].
  rewrite <- (filter_sort_docs s Spec.qualifies l).
  now rewrite (filter_within _ _ _ (query_of_qualifies data)).
Qed.

Lemma run_stages_after_match (n : nat) (rest : list stage) (l : list Doc) :
  run_stages n (Match query :: rest) (filter Spec.qualifies l)
  = run_stages n (Match query :: rest) l.
Proof.
  cbn [run_stages run_stage].
  rewrite !filter_query_qualifies.
  now rewrite (filter_within Spec.qualifies Spec.qualifies l (fun _ H => H)).
Qed.

Lemma getPage_only_qualifying (pageSize : positive) (req : Request) (db : Store) :
  handle (getPage pageSize req (Spec.only_qualifying db))
  = handle (getPage pageSize req db).
Proof.
  unfold handle, getPage.
  destruct (matches_i re_all (page (params req)));
    unfold catch_, then_, exec, aggregate, Spec.only_qualifying;
    cbn [reachable shows draw]; destruct (reachable db); try reflexivity.
  - now rewrite run_stages_after_match.
  - now rewrite run_stages_after_sort_match.
Qed.

Lemma getPage_docs_qualify (pageSize : positive) (req : Request) (db : Store)
      (docs : list Doc) :
  handle (getPage pageSize req db) = ([ResJson (Docs docs)], inr tt) ->
  Forall (fun d => Spec.qualifies d = true) docs.
Proof.
  assert (Hproj : forall l : list Doc,
             Forall (fun d => Spec.qualifies d = true) l ->
             Forall (fun d => Spec.qualifies d = true) (map (project _projections) l)).
  { intros l H. rewrite Forall_forall in *. intros d Hd.
    apply in_map_iff in Hd. destruct Hd as [d0 [<- Hd0]].
    exact (H d0 Hd0). }
  assert (Hsub : forall (l l' : list Doc),
             (forall d, In d l' -> In d l) ->
             Forall (fun d => Spec.qualifies d = true) l ->
             Forall (fun d => Spec.qualifies d = true) l').
  { intros l l' Hin H. rewrite Forall_forall in *. auto. }
  unfold handle, getPage.
  destruct (matches_i re_all (page (params req)));
    unfold catch_, then_, exec, aggregate, res_json, res_jfson, next;
    destruct (reachable db); try discriminate;
    cbn [run_stages run_stage].
  - intros H. injection H as <-.
    apply (Hsub (map (project _projections) (filter (matches query) (shows db)))).
    + intros d Hd.
      eapply Permutation_in; [apply Permutation_sym, sort_docs_perm | exact Hd].
    + apply Hproj. rewrite Forall_forall. intros d Hd.
      apply filter_In in Hd. rewrite <- matches_query_qualifies. apply Hd.
  - destruct (forallb _ (sort_of _)); [|discriminate].
    destruct (Js.integer_of _) as [n|]; [|discriminate].
    destruct (0 <=? n); [|discriminate].
    cbn [Z.ltb Z.compare]. intros H. injection H as <-.
    apply (Hsub (map (project _projections)
                   (filter (matches (query_of (Express.query req)))
                      (sort_docs (sort_of (Express.query req)) (shows db))))).
    + intros d Hd. apply in_firstn, in_skipn in Hd. exact Hd.
    + apply Hproj. rewrite Forall_forall. intros d Hd.
      apply filter_In in Hd. apply (query_of_qualifies (Express.query req)), Hd.
Qed.

Lemma sample_one_any (d : Doc) (l : list Doc) :
  In d l -> exists n, sample 1 n l = [d].
Proof.
  intros Hin. apply In_nth_error in Hin. destruct Hin as [n Hn].
  exists n.
  assert (Hlt : (n < List.length l)%nat) by (apply nth_error_Some; congruence).
  apply nth_error_split in Hn. destruct Hn as [l1 [l2 [-> Hlen]]].
  unfold sample, rotate.
  rewrite Nat.max_r by lia.
  rewrite Nat.mod_small by exact Hlt.
  rewrite skipn_app, <- Hlen, skipn_all, Nat.sub_diag. reflexivity.
Qed.

(** C1. An entry outside the invariant ([num_seasons <= 0], or no
    [num_seasons]) has no part in the count, in the answer of [getShows]
    or in the answer of [getPage]: they are what they would be with
    these entries taken out of the store, and every entry that [getPage]
    sends qualifies.  [getRandomShow] may well answer with such an
    entry: there is a draw of the sample for which it does. *)
Theorem unqualified_entries_excluded (pageSize : positive) (req : Request) (db : Store) :
  count (Spec.only_qualifying db) query = count db query
  /\ handle (getShows pageSize req (Spec.only_qualifying db))
     = handle (getShows pageSize req db)
  /\ handle (getPage pageSize req (Spec.only_qualifying db))
     = handle (getPage pageSize req db)
  /\ (forall docs,
         handle (getPage pageSize req db) = ([ResJson (Docs docs)], inr tt) ->
         Forall (fun d => Spec.qualifies d = true) docs)
  /\ (forall d,
         reachable db = true -> In d (shows db) -> Spec.qualifies d = false ->
         exists n,
           handle (getRandomShow req (Spec.drawing n db))
           = ([ResJson (OneDoc d)], inr tt)).
Proof.
  assert (Hcount : count (Spec.only_qualifying db) query = count db query).
  { unfold count, Spec.only_qualifying; cbn [reachable shows].
    destruct (reachable db); [|reflexivity].
    rewrite !filter_query_qualifies.
    now rewrite (filter_within Spec.qualifies Spec.qualifies _ (fun _ H => H)). }
  split; [exact Hcount|].
  split; [unfold handle, getShows, catch_, then_, exec; now rewrite Hcount|].
  split; [apply getPage_only_qualifying|].
  split; [apply getPage_docs_qualify|].
  intros d Hup Hin _.
  destruct (sample_one_any d (shows db) Hin) as [n Hn].
  exists n.
  unfold handle, getRandomShow, catch_, then_, exec, aggregate, Spec.drawing, res_json.
  cbn [reachable shows draw run_stages run_stage].
  now rewrite Hup, Hn.
Qed.

Lemma unqualified_entries_excluded_witness :
  exists n,
    handle (getRandomShow (Sample.request_for "tt0944947")
              (Spec.drawing n Sample.catalog))
    = ([ResJson (OneDoc Sample.pilot)], inr tt).
Proof.
  refine (proj2 (proj2 (proj2 (proj2
            (unqualified_entries_excluded 2 (Sample.request_for "tt0944947")
               Sample.catalog)))) Sample.pilot eq_refl _ eq_refl).
  simpl; auto.
Defined.

(** *** Characters *)

Ltac by_all_chars a := destruct a as [[] [] [] [] [] [] [] []]; reflexivity.

Lemma fold_char_idem (a : ascii) : Js.fold_char (Js.fold_char a) = Js.fold_char a.
Proof. by_all_chars a. Qed.

Lemma is_word_fold (a : ascii) : Js.is_word (Js.fold_char a) = Js.is_word a.
Proof. by_all_chars a. Qed.






Lemma fold_length (l : list ascii) : List.length (Spec.fold l) = List.length l.
Proof. apply length_map. Qed.

Lemma word_at_fold (l : list ascii) : word_at (Spec.fold l) = word_at l.
Proof. destruct l; simpl; [reflexivity|apply is_word_fold]. Qed.

(** *** The matcher *)

Lemma eat_in (ok : ascii -> bool) (c c' : cursor) :
  In c' (eat ok c)
  <-> exists a, ahead c = a :: ahead c' /\ passed c' = a :: passed c /\ ok a = true.
Proof.
  unfold eat. destruct c as [b l], c' as [b' l']; simpl.
  destruct l as [|a r]; simpl.
  - split; [contradiction|]. intros [a [H _]]. discriminate.
  - destruct (ok a) eqn:Hok; simpl.
    + split.
      * intros [H|[]]. injection H as <- <-. exists a. auto.
      * intros [x [H1 [H2 _]]]. injection H1 as <- <-. subst. auto.
    + split; [contradiction|].
      intros [x [H1 [_ H3]]]. injection H1 as <- _. congruence.
Qed.

Lemma accepts_iff (icase : bool) (r : regex) (c : cursor) :
  accepts icase r c = true <-> exists c', In c' (run icase r c).
Proof.
  unfold accepts. destruct (run icase r c) as [|c1 l].
  - split; [discriminate|]. intros [c' []].
  - split; [|reflexivity]. intros _. exists c1. now left.
Qed.

(** The one way a spelled-out pattern matches: it passes over a piece of
    the subject that reads the same, whatever the case. *)
Lemma run_lit_in (w : string) (c c' : cursor) :
  In c' (run true (lit w) c)
  <-> exists mid,
      ahead c = (mid ++ ahead c')%list
      /\ passed c' = (rev mid ++ passed c)%list
      /\ Spec.fold mid = Spec.fold (list_ascii_of_string w).
Proof.
  revert c. induction w as [|x w IH]; intros c; simpl.
  - split.
    + intros [<-|[]]. exists []. auto.
    + intros [mid [H1 [H2 H3]]].
      destruct mid; [|discriminate]. simpl in *.
      left. destruct c, c'; simpl in *; congruence.
  - rewrite in_flat_map. split.
    + intros [c1 [H1 H2]].
      apply eat_in in H1. destruct H1 as [a [Ha [Hp Hok]]].
      apply IH in H2. destruct H2 as [mid [Hm [Hq Hf]]].
      exists (a :: mid). simpl. rewrite Ha, Hm, Hq, Hp, <- app_assoc. simpl.
      repeat split; auto.
      unfold same_char in Hok. apply Ascii.eqb_eq in Hok.
      now rewrite Hf, Hok.
    + intros [mid [Hm [Hq Hf]]].
      destruct mid as [|a mid]; [discriminate|].
      simpl in Hf. injection Hf as Ha Hf.
      exists (a :: passed c, (mid ++ ahead c')%list). split.
      * apply eat_in. exists a. simpl. repeat split; auto.
        unfold same_char. apply Ascii.eqb_eq. auto.
      * apply IH. exists mid. simpl. repeat split; auto.
        rewrite Hq. simpl. now rewrite <- app_assoc.
Qed.

Lemma cursors_from_in (b l : list ascii) (c : cursor) :
  In c (cursors_from b l)
  <-> exists pre, l = (pre ++ ahead c)%list /\ passed c = (rev pre ++ b)%list.
Proof.
  revert b. induction l as [|a r IH]; intros b; simpl.
  - split.
    + intros [<-|[]]. exists []. auto.
    + intros [pre [H1 H2]]. left.
      symmetry in H1. apply app_eq_nil in H1. destruct H1 as [-> H1].
      destruct c; simpl in *; congruence.
  - split.
    + intros [<-|H].
      * exists []. auto.
      * apply IH in H. destruct H as [pre [H1 H2]].
        exists (a :: pre). simpl. rewrite H1, H2, <- app_assoc. auto.
    + intros [pre [H1 H2]]. destruct pre as [|x pre]; simpl in *.
      * left. destruct c; simpl in *; congruence.
      * right. injection H1 as <- H1. apply IH. exists pre.
        rewrite H2, <- app_assoc. auto.
Qed.

Lemma test_iff (icase : bool) (r : regex) (s : string) :
  test icase r s = true
  <-> exists pre post,
      list_ascii_of_string s = (pre ++ post)%list
      /\ accepts icase r (rev pre, post) = true.
Proof.
  unfold test. rewrite existsb_exists. split.
  - intros [c [Hc Ha]]. apply cursors_from_in in Hc.
    destruct Hc as [pre [H1 H2]]. rewrite app_nil_r in H2.
    exists pre, (ahead c). split; [exact H1|].
    destruct c; simpl in *. now subst.
  - intros [pre [post [H1 H2]]]. exists (rev pre, post). split; [|exact H2].
    apply cursors_from_in. exists pre. simpl. now rewrite app_nil_r.
Qed.

(** A spelled-out pattern under the [i] flag looks for the text anywhere
    in the subject. *)
Lemma matches_i_lit (w s : string) :
  matches_i (lit w) s = true <-> Spec.contains_text w s.
Proof.
  unfold matches_i, Spec.contains_text. rewrite test_iff. split.
  - intros [pre [post [H1 H2]]].
    apply accepts_iff in H2. destruct H2 as [c' H2].
    apply run_lit_in in H2. destruct H2 as [mid [Hm [_ Hf]]]. simpl in Hm.
    exists pre, mid, (ahead c'). now rewrite H1, Hm.
  - intros [pre [mid [post [H1 H2]]]].
    exists pre, (mid ++ post)%list. split; [exact H1|].
    apply accepts_iff. exists (rev mid ++ rev pre, post)%list.
    apply run_lit_in. exists mid. auto.
Qed.

(** *** Case *)

Lemma flat_map_map {A B C} (f : A -> B) (g : B -> list C) (l : list A) :
  flat_map g (map f l) = flat_map (fun x => g (f x)) l.
Proof.
  induction l as [|x l IH]; simpl; [reflexivity|]. now rewrite IH.
Qed.

Lemma map_flat_map {A B C} (f : B -> C) (g : A -> list B) (l : list A) :
  map f (flat_map g l) = flat_map (fun x => map f (g x)) l.
Proof.
  induction l as [|x l IH]; simpl; [reflexivity|]. now rewrite map_app, IH.
Qed.

Lemma flat_map_flat_map {A B C} (f : A -> list B) (g : B -> list C) (l : list A) :
  flat_map g (flat_map f l) = flat_map (fun x => flat_map g (f x)) l.
Proof.
  induction l as [|x l IH]; simpl; [reflexivity|]. now rewrite flat_map_app, IH.
Qed.

Lemma eat_fold (ok ok' : ascii -> bool) (c : cursor) :
  (forall a, ok' (Js.fold_char a) = ok a) ->
  eat ok' (Spec.fold_cursor c) = map Spec.fold_cursor (eat ok c).
Proof.
  intros H. destruct c as [b [|a r]]; simpl; [reflexivity|].
  unfold eat; simpl. rewrite H. now destruct (ok a).
Qed.

Lemma star_fold (step : cursor -> list cursor) (fuel : nat) (c : cursor) :
  (forall c0, step (Spec.fold_cursor c0) = map Spec.fold_cursor (step c0)) ->
  star step fuel (Spec.fold_cursor c) = map Spec.fold_cursor (star step fuel c).
Proof.
  intros Hstep. revert c. induction fuel as [|f IH]; intros c; simpl; [reflexivity|].
  f_equal. rewrite Hstep, flat_map_map, map_flat_map.
  apply flat_map_ext. intros c'.
  unfold ahead, Spec.fold_cursor; simpl. rewrite !fold_length.
  destruct (_ <? _)%nat; [apply IH|reflexivity].
Qed.

(** Under the [i] flag a caseless pattern reads a subject as it reads
    the subject in small letters. *)
Lemma run_fold (r : regex) (c : cursor) :
  Spec.caseless r ->
  run true r (Spec.fold_cursor c) = map Spec.fold_cursor (run true r c).
Proof.
  revert c. induction r as [|x|p|r1 IH1 r2 IH2|r1 IH1|r1 IH1| |];
    intros c Hr; simpl in *.
  - reflexivity.
  - apply eat_fold. intros a. unfold same_char. now rewrite fold_char_idem.
  - apply eat_fold, Hr.
  - destruct Hr as [H1 H2].
    rewrite IH1, flat_map_map, map_flat_map by assumption.
    apply flat_map_ext. intros c'. now apply IH2.
  - unfold ahead at 1, Spec.fold_cursor at 1; simpl. rewrite fold_length.
    apply star_fold. intros c0. now apply IH1.
  - rewrite IH1 by assumption. now destruct (run true r1 c).
  - destruct c as [[|b0 b] a]; reflexivity.
  - unfold at_boundary, passed, ahead, Spec.fold_cursor; simpl.
    rewrite !word_at_fold. now destruct (xorb _ _).
Qed.

Lemma accepts_fold (r : regex) (c : cursor) :
  Spec.caseless r ->
  accepts true r (Spec.fold_cursor c) = accepts true r c.
Proof.
  intros Hr. unfold accepts. rewrite run_fold by assumption.
  now destruct (run true r c).
Qed.

Lemma cursors_from_fold (b l : list ascii) :
  cursors_from (Spec.fold b) (Spec.fold l)
  = map Spec.fold_cursor (cursors_from b l).
Proof.
  revert b. induction l as [|a r IH]; intros b; simpl; [reflexivity|].
  rewrite <- (IH (a :: b)). reflexivity.
Qed.

Lemma existsb_map {A B} (f : A -> B) (p : B -> bool) (l : list A) :
  existsb p (map f l) = existsb (fun x => p (f x)) l.
Proof.
  induction l as [|x l IH]; simpl; [reflexivity|]. now rewrite IH.
Qed.

Lemma existsb_cursors_fold (r : regex) (l : list ascii) :
  Spec.caseless r ->
  existsb (accepts true r) (cursors_from [] (Spec.fold l))
  = existsb (accepts true r) (cursors_from [] l).
Proof.
  intros Hr. change (@nil ascii) with (Spec.fold []) at 1.
  rewrite cursors_from_fold, existsb_map.
  induction (cursors_from [] l) as [|c cs IH]; simpl; [reflexivity|].
  now rewrite IH, accepts_fold.
Qed.

(** Two subjects that differ by case only are matched alike. *)
Lemma matches_i_same_text (r : regex) (s t : string) :
  Spec.caseless r -> Spec.same_text s t -> matches_i r s = matches_i r t.
Proof.
  intros Hr Hst. unfold matches_i, test.
  rewrite <- (existsb_cursors_fold r (list_ascii_of_string s)) by assumption.
  rewrite <- (existsb_cursors_fold r (list_ascii_of_string t)) by assumption.
  now rewrite Hst.
Qed.

Lemma caseless_lit (w : string) : Spec.caseless (lit w).
Proof. induction w; simpl; auto. Qed.



(** *** The sort selector *)

Lemma same_text_truthy (s t : string) :
  Spec.same_text s t -> t <> EmptyString -> Js.truthy (Some s) = true.
Proof.
  intros H Ht. destruct s; [|reflexivity].
  destruct t; [congruence|discriminate H].
Qed.

Lemma sort_of_named (data : QueryString) (s t : string) :
  Express.sort data = Some s -> Spec.same_text s t -> t <> EmptyString ->
  sort_of data
  = sort_of {| order := order data; keywords := keywords data;
               sort := Some t; genre := genre data |}.
Proof.
  intros Hs Hst Ht. unfold sort_of at 1. rewrite Hs.
  rewrite (same_text_truthy s t Hst Ht).
  rewrite (matches_i_same_text re_name s t (caseless_lit _) Hst).
  rewrite (matches_i_same_text re_rating s t (caseless_lit _) Hst).
  rewrite (matches_i_same_text re_trending s t (caseless_lit _) Hst).
  rewrite (matches_i_same_text re_updated s t (caseless_lit _) Hst).
  rewrite (matches_i_same_text re_year s t (caseless_lit _) Hst).
  unfold sort_of; cbn [Express.sort].
  destruct t; [congruence|reflexivity].
Qed.

(** C6. The sort selector of a page request is ([rating.votes],
    [rating.percentage], [rating.watching]) unless a [sort] parameter
    names another one: [name] gives [title], [rating] gives
    ([rating.percentage], [rating.votes]), [trending] gives
    [rating.watching], [updated] gives [latest_episode] and [year] gives
    [year], whatever the case of the name.  Every key carries the
    direction of the request: the integer read from [order] ([1] and
    [-1] for the strings "1" and "-1"), and [-1] when there is none. *)
Theorem sort_selector_of_request (data : QueryString) :
  (order data = None \/ order data = Some EmptyString -> order_of data = Some (-1))
  /\ (order data = Some "1" -> order_of data = Some 1)
  /\ (order data = Some "-1" -> order_of data = Some (-1))
  /\ (forall o, order data = Some o -> o <> EmptyString ->
                order_of data = Js.parseInt o)
  /\ (Express.sort data = None \/ Express.sort data = Some EmptyString ->
      sort_of data = [ (By_rating_votes, order_of data);
                       (By_rating_percentage, order_of data);
                       (By_rating_watching, order_of data) ])
  /\ (forall s, Express.sort data = Some s -> Spec.same_text s "name" ->
                sort_of data = [ (By_title, order_of data) ])
  /\ (forall s, Express.sort data = Some s -> Spec.same_text s "rating" ->
                sort_of data = [ (By_rating_percentage, order_of data);
                                 (By_rating_votes, order_of data) ])
  /\ (forall s, Express.sort data = Some s -> Spec.same_text s "trending" ->
                sort_of data = [ (By_rating_watching, order_of data) ])
  /\ (forall s, Express.sort data = Some s -> Spec.same_text s "updated" ->
                sort_of data = [ (By_latest_episode, order_of data) ])
  /\ (forall s, Express.sort data = Some s -> Spec.same_text s "year" ->
                sort_of data = [ (By_year, order_of data) ]).
Proof.
  repeat split.
  - unfold order_of. now intros [->| ->].
  - unfold order_of. now intros ->.
  - unfold order_of. now intros ->.
  - unfold order_of. intros o -> Ho. destruct o; [congruence|reflexivity].
  - unfold sort_of. now intros [->| ->].
  - intros s Hs Hst. rewrite (sort_of_named data s "name" Hs Hst); [reflexivity|discriminate].
  - intros s Hs Hst. rewrite (sort_of_named data s "rating" Hs Hst); [reflexivity|discriminate].
  - intros s Hs Hst. rewrite (sort_of_named data s "trending" Hs Hst); [reflexivity|discriminate].
  - intros s Hs Hst. rewrite (sort_of_named data s "updated" Hs Hst); [reflexivity|discriminate].
  - intros s Hs Hst. rewrite (sort_of_named data s "year" Hs Hst); [reflexivity|discriminate].
Qed.

Lemma sort_selector_of_request_witness :
  sort_of {| order := Some "1"; keywords := None; sort := Some "Name"; genre := None |}
  = [ (By_title, Some 1) ].
Proof.
  refine (proj1 (proj2 (proj2 (proj2 (proj2 (proj2
            (sort_selector_of_request
               {| order := Some "1"; keywords := None;
                  sort := Some "Name"; genre := None |}))))))
            "Name" eq_refl eq_refl).
Defined.

(** *** The full listing *)

Lemma strongly_sorted_weaken {A} (R R' : A -> A -> Prop) (l : list A) :
  (forall a b, R a b -> R' a b) -> StronglySorted R l -> StronglySorted R' l.
Proof.
  intros HR. induction 1 as [|a l Hl IH Ha]; constructor; auto.
  rewrite Forall_forall in *. auto.
Qed.

Lemma by_title_descending (a b : Doc) :
  doc_leb [ (By_title, Some (-1)) ] a b = true -> Spec.title_desc a b.
Proof.
  unfold doc_leb, Spec.title_desc, compare_docs, directed.
  rewrite (Spec.cmp_opp bson_comparator (value_at By_title b) (value_at By_title a)).
  destruct (compare_bson (value_at By_title a) (value_at By_title b));
    simpl; congruence.
Qed.

(** *** The genre *)

Lemma matches_i_two_parts (first second s : string) :
  matches_i (RSeq (lit first) (RSeq dash_or_space (lit second))) s = true
  <-> Spec.spells first second s.
Proof.
  unfold matches_i, Spec.spells. rewrite test_iff. split.
  - intros [pre [post [Hs Hacc]]].
    apply accepts_iff in Hacc. destruct Hacc as [c' Hc']. simpl in Hc'.
    apply in_flat_map in Hc'. destruct Hc' as [c1 [H1 Hc']].
    apply in_flat_map in Hc'. destruct Hc' as [c2 [H2 H3]].
    apply run_lit_in in H1. destruct H1 as [x [Hx [_ Hfx]]].
    apply eat_in in H2. destruct H2 as [y [Hy [_ Hok]]].
    apply run_lit_in in H3. destruct H3 as [z [Hz [_ Hfz]]].
    simpl in Hx. exists pre, x, y, z, (ahead c').
    rewrite Hs, Hx, Hy, Hz. auto.
  - intros [pre [x [y [z [post [Hs [Hfx [Hok Hfz]]]]]]]].
    exists pre, (x ++ y :: z ++ post)%list. split; [exact Hs|].
    apply accepts_iff.
    exists (rev z ++ y :: rev x ++ rev pre, post)%list. simpl.
    apply in_flat_map. exists (rev x ++ rev pre, y :: z ++ post)%list. split.
    { apply run_lit_in. exists x. auto. }
    apply in_flat_map. exists (y :: rev x ++ rev pre, z ++ post)%list. split.
    { apply eat_in. exists y. auto. }
    apply run_lit_in. exists z. auto.
Qed.

Lemma re_all_iff (s : string) :
  matches_i re_all s = true <-> Spec.contains_text "all" s.
Proof. apply matches_i_lit. Qed.

Lemma re_science_fiction_iff (s : string) :
  matches_i re_science_fiction s = true <-> Spec.spells "science" "fiction" s.
Proof. apply matches_i_two_parts. Qed.

Lemma re_sci_fi_iff (s : string) :
  matches_i re_sci_fi s = true <-> Spec.spells "sci" "fi" s.
Proof. apply matches_i_two_parts. Qed.


Lemma matches_genre (data : QueryString) (d : Doc) :
  matches (query_of data) d
  = matches (query_of (Spec.without_genre data)) d
    && holds (genre_of data) (fun g => field_is (genres d) (existsb (String.eqb g))).
Proof.
  unfold matches, query_of, Spec.without_genre, title_of, genre_of;
    cbn [id_is num_seasons_gt title_regex genres_has keywords genre holds].
  now rewrite andb_true_r.
Qed.

(** C7, as the code has it. A genre parameter that is missing, empty or
    contains the text "all" (in any case, anywhere in it) puts no
    constraint on the genres.  Otherwise a value in which "science" and
    "fiction", or "sci" and "fi", are joined by a dash or a white space
    (in any case, anywhere in it) asks for the tag [science-fiction];
    every other value asks for itself in small letters.  What is asked
    for must be one of the genre tags of the entry, as it is written. *)
Theorem genre_filter_of_request (data : QueryString) :
  (genre data = None -> genre_of data = None)
  /\ (forall g, genre data = Some g ->
        (g = EmptyString \/ Spec.contains_text "all" g -> genre_of data = None)
        /\ (g <> EmptyString -> ~ Spec.contains_text "all" g ->
            Spec.spells "science" "fiction" g \/ Spec.spells "sci" "fi" g ->
            genre_of data = Some "science-fiction")
        /\ (g <> EmptyString -> ~ Spec.contains_text "all" g ->
            ~ Spec.spells "science" "fiction" g -> ~ Spec.spells "sci" "fi" g ->
            genre_of data = Some (Js.toLowerCase g)))
  /\ (forall tag d, genre_of data = Some tag ->
        (matches (query_of data) d = true
         <-> matches (query_of (Spec.without_genre data)) d = true
             /\ exists tags, genres d = Some tags /\ In tag tags))
  /\ (forall d, genre_of data = None ->
        matches (query_of data) d
        = matches (query_of (Spec.without_genre data)) d).
Proof.
  split; [|split; [|split]].
  - unfold genre_of. now intros ->.
  - intros g Hg. unfold genre_of. rewrite Hg.
    repeat split.
    + intros [->|Htext]; [reflexivity|].
      apply re_all_iff in Htext. rewrite Htext. now destruct (Js.truthy (Some g)).
    + intros Hne Hno Hsp.
      destruct g; [congruence|]. cbn [Js.truthy andb].
      destruct (matches_i re_all _) eqn:E; [now apply re_all_iff in E|]. cbn [negb].
      destruct Hsp as [Hsp|Hsp];
        [apply re_science_fiction_iff in Hsp|apply re_sci_fi_iff in Hsp];
        rewrite Hsp; [reflexivity|now rewrite orb_true_r].
    + intros Hne Hno Hn1 Hn2.
      destruct g; [congruence|]. cbn [Js.truthy andb].
      destruct (matches_i re_all _) eqn:E; [now apply re_all_iff in E|]. cbn [negb].
      destruct (matches_i re_science_fiction _) eqn:E1;
        [now apply re_science_fiction_iff in E1|].
      destruct (matches_i re_sci_fi _) eqn:E2; [now apply re_sci_fi_iff in E2|].
      reflexivity.
  - intros tag d Htag. rewrite (matches_genre data d), Htag.
    rewrite andb_true_iff. apply and_iff_compat_l.
    cbn [holds]. destruct (genres d) as [tags|]; cbn [field_is].
    + rewrite existsb_exists. split.
      * intros [t [Hin Ht]]. apply String.eqb_eq in Ht. subst t.
        exists tags. auto.
      * intros [tags' [E Hin]]. injection E as <-.
        exists tag. split; [exact Hin|apply String.eqb_refl].
    + split; [discriminate|]. intros [tags [E _]]. discriminate E.
  - intros d Hnone. rewrite (matches_genre data d), Hnone.
    cbn [holds]. now rewrite andb_true_r.
Qed.

Lemma genre_filter_of_request_witness :
  genre_of {| order := None; keywords := None; sort := None; genre := Some "Sci Fi" |}
  = Some "science-fiction".
Proof.
  refine (proj1 (proj2 (proj1 (proj2 (genre_filter_of_request
            {| order := None; keywords := None; sort := None;
               genre := Some "Sci Fi" |})) "Sci Fi" eq_refl)) _ _ _).
  - discriminate.
  - intros H. apply re_all_iff in H. discriminate H.
  - right. apply re_sci_fi_iff. reflexivity.
Defined.

(** The spelling "Sci Fi" asks for what "science-fiction" asks for. *)
Lemma genre_sci_fi_is_science_fiction (data : QueryString) :
  genre_of {| order := order data; keywords := keywords data;
              sort := Express.sort data; genre := Some "Sci Fi" |}
  = genre_of {| order := order data; keywords := keywords data;
                sort := Express.sort data; genre := Some "science-fiction" |}.
Proof. reflexivity. Qed.

(** The claim as stated fails: "ballet" is neither the word "all" nor a
    spelling of science fiction, and yet it is not looked for among the
    genre tags. *)
Lemma genre_with_all_inside_is_no_filter :
  ~ (~ Spec.same_text "ballet" "all" ->
     ~ Spec.spells "science" "fiction" "ballet" ->
     ~ Spec.spells "sci" "fi" "ballet" ->
     genre_of {| order := None; keywords := None; sort := None;
                 genre := Some "ballet" |}
     = Some (Js.toLowerCase "ballet")).
Proof.
  intros H. assert (Hno : @None string = Some (Js.toLowerCase "ballet")).
  { apply H.
    - unfold Spec.same_text. discriminate.
    - intros Hs. apply re_science_fiction_iff in Hs. discriminate Hs.
    - intros Hs. apply re_sci_fi_iff in Hs. discriminate Hs. }
  discriminate Hno.
Qed.

(** With that genre, entries of every genre are sent. *)
Lemma getPage_ballet_lists_every_genre :
  handle (getPage 50 (Sample.request "1"
                        {| order := None; keywords := None; sort := None;
                           genre := Some "ballet" |})
                  Sample.catalog)
  = ([ResJson (Docs (map (project _projections)
                       [Sample.thrones; Sample.walking; Sample.expanse]))],
     inr tt).
Proof. reflexivity. Qed.

(** *** The keyword pattern *)

Lemma cursor_eq (c c' : cursor) :
  passed c' = passed c -> ahead c' = ahead c -> c' = c.
Proof. destruct c, c'; simpl; congruence. Qed.

(** [p*] for a class [p] passes over any run of characters of the
    class. *)
Lemma star_eat_in (p : ascii -> bool) (fuel : nat) (c c' : cursor) :
  (List.length (ahead c) <= fuel)%nat ->
  In c' (star (eat p) fuel c)
  <-> exists mid,
      ahead c = (mid ++ ahead c')%list
      /\ passed c' = (rev mid ++ passed c)%list
      /\ Forall (fun a => p a = true) mid.
Proof.
  revert c. induction fuel as [|f IH]; intros c Hfuel.
  - simpl. split.
    + intros [<-|[]]. exists []. auto.
    + intros [mid [H1 [H2 _]]]. left.
      destruct (ahead c) eqn:E; [|simpl in Hfuel; lia].
      symmetry in H1. apply app_eq_nil in H1. destruct H1 as [-> H1].
      symmetry. apply cursor_eq; [exact H2|congruence].
  - simpl. split.
    + intros [<-|H].
      * exists []. auto.
      * apply in_flat_map in H. destruct H as [c1 [H1 H2]].
        apply eat_in in H1. destruct H1 as [a [Ha [Hp Hok]]].
        assert (Hlt : (List.length (ahead c1) < List.length (ahead c))%nat)
          by (rewrite Ha; simpl; lia).
        apply Nat.ltb_lt in Hlt. rewrite Hlt in H2.
        apply IH in H2; [|apply Nat.ltb_lt in Hlt; lia].
        destruct H2 as [mid [Hm [Hq Hall]]].
        exists (a :: mid). simpl. rewrite Ha, Hm, Hq, Hp, <- app_assoc.
        repeat split; auto.
    + intros [mid [Hm [Hq Hall]]]. destruct mid as [|a mid].
      * left. symmetry. apply cursor_eq; [exact Hq|now rewrite Hm].
      * right. apply in_flat_map.
        exists (a :: passed c, (mid ++ ahead c')%list). split.
        { apply eat_in. exists a. simpl. inversion Hall; subst. auto. }
        assert (Hlt : (List.length (ahead (a :: passed c, (mid ++ ahead c')%list))
                       < List.length (ahead c))%nat)
          by (rewrite Hm; simpl; lia).
        apply Nat.ltb_lt in Hlt. rewrite Hlt.
        apply IH.
        { simpl. rewrite Hm in Hfuel. simpl in Hfuel. lia. }
        exists mid. simpl. inversion Hall; subst. repeat split; auto.
        rewrite Hq. simpl. now rewrite <- app_assoc.
Qed.

Lemma run_any_in (c c' : cursor) :
  In c' (run true (RStar dot) c)
  <-> exists mid,
      ahead c = (mid ++ ahead c')%list
      /\ passed c' = (rev mid ++ passed c)%list
      /\ Forall Spec.not_line_feed mid.
Proof.
  simpl. rewrite star_eat_in by lia.
  split; intros [mid [H1 [H2 H3]]]; exists mid; repeat split; auto;
    rewrite Forall_forall in *; intros a Ha; specialize (H3 a Ha);
    unfold Spec.not_line_feed in *; now destruct (a =? "010")%char.
Qed.


(** Where a lookahead is satisfied: further on in the same line, the
    word stands between two word boundaries. *)
Lemma lookahead_accepts (w : string) (c : cursor) :
  accepts true (lookahead w) c = true
  <-> exists skipped mid post,
      ahead c = (skipped ++ mid ++ post)%list
      /\ Forall Spec.not_line_feed skipped
      /\ Spec.fold mid = Spec.fold (list_ascii_of_string w)
      /\ at_boundary (rev skipped ++ passed c, mid ++ post)%list = true
      /\ at_boundary (rev mid ++ rev skipped ++ passed c, post)%list = true.
Proof.
  rewrite accepts_iff. unfold lookahead.
  cbn [run]. split.
  - intros [c' Hc'].
    destruct (flat_map _ _) eqn:E; [contradiction|].
    assert (Hin : In c0 (flat_map
                           (fun c1 => flat_map
                              (fun c2 => flat_map
                                 (fun c3 => if at_boundary c3 then [c3] else [])
                                 (run true (lit w) c2))
                              (if at_boundary c1 then [c1] else []))
                           (run true (RStar dot) c)))
      by (cbn [run]; rewrite E; now left).
    apply in_flat_map in Hin. destruct Hin as [c1 [H1 Hin]].
    apply in_flat_map in Hin. destruct Hin as [c2 [H2 Hin]].
    apply in_flat_map in Hin. destruct Hin as [c3 [H3 Hin]].
    apply run_any_in in H1. destruct H1 as [skipped [Hs [Hps Hnl]]].
    destruct (at_boundary c1) eqn:B1; [|contradiction].
    destruct H2 as [<-|[]].
    apply run_lit_in in H3. destruct H3 as [mid [Hm [Hpm Hf]]].
    destruct (at_boundary c3) eqn:B3; [|contradiction].
    exists skipped, mid, (ahead c3).
    rewrite Hs, Hm. repeat split; auto.
    + rewrite <- Hps, <- Hm. now destruct c1.
    + rewrite <- Hps, <- Hpm. now destruct c3.
  - intros [skipped [mid [post [Hs [Hnl [Hf [B1 B3]]]]]]].
    exists c.
    assert (Hin : In (rev mid ++ rev skipped ++ passed c, post)%list
                    (flat_map
                       (fun c1 => flat_map
                          (fun c2 => flat_map
                             (fun c3 => if at_boundary c3 then [c3] else [])
                             (run true (lit w) c2))
                          (if at_boundary c1 then [c1] else []))
                       (run true (RStar dot) c))).
    { apply in_flat_map.
      exists (rev skipped ++ passed c, mid ++ post)%list. split.
      { apply run_any_in. exists skipped. auto. }
      rewrite B1. apply in_flat_map.
      exists (rev skipped ++ passed c, mid ++ post)%list. split; [now left|].
      apply in_flat_map.
      exists (rev mid ++ rev skipped ++ passed c, post)%list. split.
      { apply run_lit_in. exists mid. auto. }
      rewrite B3. now left. }
    cbn [run] in Hin.
    destruct (flat_map _ _); [contradiction|now left].
Qed.

Lemma run_lookahead (w : string) (c : cursor) :
  run true (lookahead w) c
  = if accepts true (lookahead w) c then [c] else [].
Proof.
  unfold accepts, lookahead. cbn [run].
  now destruct (flat_map _ _).
Qed.

Lemma run_lookaheads (ws : list string) (re : regex) (c : cursor) :
  run true (fold_left (fun re w => RSeq re (lookahead w)) ws re) c
  = flat_map
      (fun c1 => if forallb (fun w => accepts true (lookahead w) c1) ws
                 then [c1] else [])
      (run true re c).
Proof.
  revert re. induction ws as [|w ws IH]; intros re; cbn [fold_left forallb].
  - induction (run true re c) as [|c1 l IHl]; simpl; [reflexivity|].
    now rewrite <- IHl.
  - rewrite IH. cbn [run]. rewrite flat_map_flat_map.
    apply flat_map_ext. intros c1. rewrite run_lookahead.
    destruct (accepts true (lookahead w) c1); simpl; [|reflexivity].
    now rewrite app_nil_r.
Qed.

(** The pattern is anchored: the lookaheads are all tried at the start
    of the title, and nothing else is asked. *)
Lemma keywords_regex_at_start (kw title : string) :
  test true (keywords_regex kw) title
  = forallb (fun w => accepts true (lookahead w) ([], list_ascii_of_string title))
      (words_of kw).
Proof.
  unfold test, keywords_regex.
  assert (Hacc : forall c,
             accepts true (RSeq (fold_left (fun re w => RSeq re (lookahead w))
                                   (words_of kw) RBol) (RStar dot)) c
             = match passed c with
               | [] => forallb (fun w => accepts true (lookahead w) c) (words_of kw)
               | _ :: _ => false
               end).
  { intros c. unfold accepts at 1. cbn [run]. rewrite run_lookaheads. cbn [run].
    destruct (passed c); [|reflexivity]. simpl.
    destruct (forallb _ _); simpl; [|reflexivity].
    now destruct (List.length (ahead c)). }
  destruct (list_ascii_of_string title) as [|a r]; simpl.
  - rewrite Hacc. simpl. now rewrite orb_false_r.
  - rewrite Hacc. simpl.
    assert (Hrest : existsb
                      (accepts true (RSeq (fold_left (fun re w => RSeq re (lookahead w))
                                             (words_of kw) RBol) (RStar dot)))
                      (cursors_from [a] r) = false).
    { apply not_true_is_false. intros H. apply existsb_exists in H.
      destruct H as [c [Hc Ha]]. rewrite Hacc in Ha.
      apply cursors_from_in in Hc. destruct Hc as [pre [_ Hp]].
      rewrite Hp in Ha. destruct (rev pre); discriminate. }
    rewrite Hrest. now rewrite orb_false_r.
Qed.

(** *** Words and lines *)

Lemma lower_char_plain (a : ascii) :
  Js.is_alnum a = true -> Spec.plain (Js.lower_char a).
Proof.
  destruct a as [[] [] [] [] [] [] [] []]; intros H;
    first [discriminate H | split; reflexivity].
Qed.

Lemma word_not_line_feed (a : ascii) :
  Js.is_word a = true -> Spec.not_line_feed a.
Proof.
  destruct a as [[] [] [] [] [] [] [] []]; intros H;
    first [discriminate H | reflexivity].
Qed.

Lemma alnum_is_word (a : ascii) : Js.is_alnum a = true -> Js.is_word a = true.
Proof. unfold Js.is_word. now intros ->. Qed.

Lemma sanitized_plain (p : string) :
  Forall Spec.plain
    (list_ascii_of_string (Js.toLowerCase (Js.strip_non_alnum p))).
Proof.
  induction p as [|a p IH]; simpl; [constructor|].
  destruct (Js.is_alnum a) eqn:E; simpl; [|exact IH].
  constructor; [now apply lower_char_plain|exact IH].
Qed.

Lemma words_of_plain (kw w : string) :
  In w (words_of kw) -> Forall Spec.plain (list_ascii_of_string w).
Proof.
  unfold words_of. rewrite in_map_iff. intros [p [<- _]].
  apply sanitized_plain.
Qed.

Lemma fold_plain (l : list ascii) : Forall Spec.plain l -> Spec.fold l = l.
Proof.
  induction 1 as [|a l [_ Ha] _ IH]; simpl; [reflexivity|].
  now rewrite Ha, IH.
Qed.

Lemma reads_plain_all_words (mid wl : list ascii) :
  Forall Spec.plain wl -> Spec.fold mid = wl ->
  Forall (fun a => Js.is_word a = true) mid.
Proof.
  intros Hwl. revert mid. induction Hwl as [|x wl [Hx _] _ IH]; intros mid Hf.
  - destruct mid; [constructor|discriminate].
  - destruct mid as [|a mid]; [discriminate|].
    simpl in Hf. injection Hf as Ha Hf. constructor; [|now apply IH].
    rewrite <- is_word_fold, Ha. now apply alnum_is_word.
Qed.

Lemma word_at_app (mid post : list ascii) :
  Forall (fun a => Js.is_word a = true) mid -> mid <> [] ->
  word_at (mid ++ post) = true.
Proof.
  intros H Hne. destruct mid as [|a mid]; [congruence|].
  simpl. now inversion H.
Qed.

Lemma word_at_rev_app (mid before : list ascii) :
  Forall (fun a => Js.is_word a = true) mid -> mid <> [] ->
  word_at (rev mid ++ before) = true.
Proof.
  intros H Hne. apply word_at_app.
  - rewrite Forall_forall in *. intros a Ha. apply H. now apply in_rev.
  - intros E. apply Hne. rewrite <- (rev_involutive mid), E. reflexivity.
Qed.

Lemma first_line_app (l m : list ascii) :
  Forall Spec.not_line_feed l ->
  Spec.first_line (l ++ m) = (l ++ Spec.first_line m)%list.
Proof.
  induction 1 as [|a l Ha _ IH]; simpl; [reflexivity|].
  unfold Spec.not_line_feed in Ha. now rewrite Ha, IH.
Qed.

Lemma first_line_rest (l : list ascii) :
  exists rest, l = (Spec.first_line l ++ rest)%list /\ word_at rest = false.
Proof.
  induction l as [|a l [rest [IH Hr]]]; simpl.
  - exists []. auto.
  - destruct (a =? "010")%char eqn:E.
    + exists (a :: l). split; [reflexivity|].
      apply Ascii.eqb_eq in E. now subst.
    + exists rest. split; [|exact Hr]. simpl. now rewrite <- IH.
Qed.

Lemma first_line_no_line_feed (l : list ascii) :
  Forall Spec.not_line_feed (Spec.first_line l).
Proof.
  induction l as [|a l IH]; simpl; [constructor|].
  destruct (a =? "010")%char eqn:E; [constructor|].
  now constructor.
Qed.

Lemma word_at_first_line (l : list ascii) :
  word_at l = false -> word_at (Spec.first_line l) = false.
Proof.
  destruct l as [|a l]; simpl; [reflexivity|].
  now destruct (a =? "010")%char.
Qed.

Lemma first_word_char (l : list ascii) :
  (exists a, In a l /\ Js.is_word a = true) ->
  exists pre a post,
    l = (pre ++ a :: post)%list /\ Js.is_word a = true /\ word_at (rev pre) = false.
Proof.
  induction l as [|x l IH]; intros [a [Hin Ha]]; [contradiction|].
  destruct (Js.is_word x) eqn:Ex.
  - exists [], x, l. auto.
  - destruct Hin as [->|Hin]; [congruence|].
    destruct IH as [pre [b [post [-> [Hb Hpre]]]]]; [now exists a|].
    exists (x :: pre), b, post. repeat split; auto.
    simpl. destruct (rev pre) as [|y r] eqn:E; simpl in *; auto.
Qed.

(** A lookahead for a word other than the empty one, tried at the start
    of a title. *)
Lemma lookahead_word (wl l : list ascii) :
  Forall Spec.plain wl -> wl <> [] ->
  (exists skipped mid post,
      l = (skipped ++ mid ++ post)%list
      /\ Forall Spec.not_line_feed skipped
      /\ Spec.fold mid = Spec.fold wl
      /\ at_boundary (rev skipped ++ [], mid ++ post)%list = true
      /\ at_boundary (rev mid ++ rev skipped ++ [], post)%list = true)
  <-> (exists pre mid post,
         Spec.first_line l = (pre ++ mid ++ post)%list
         /\ Spec.fold mid = wl
         /\ word_at (rev pre) = false
         /\ word_at post = false).
Proof.
  intros Hwl Hne. rewrite (fold_plain wl Hwl).
  assert (Hmid : forall mid, Spec.fold mid = wl ->
                   Forall (fun a => Js.is_word a = true) mid /\ mid <> []).
  { intros mid Hf. split; [now apply reads_plain_all_words with wl|].
    intros ->. now apply Hne. }
  unfold at_boundary, passed, ahead; cbn [fst snd]. split.
  - intros [skipped [mid [post [Hl [Hnl [Hf [B1 B2]]]]]]].
    destruct (Hmid mid Hf) as [Hw Hn].
    rewrite app_nil_r in *.
    rewrite (word_at_app mid post Hw Hn) in B1.
    rewrite (word_at_rev_app mid (rev skipped) Hw Hn) in B2.
    exists skipped, mid, (Spec.first_line post). repeat split.
    + rewrite Hl, first_line_app by assumption. f_equal.
      apply first_line_app.
      rewrite Forall_forall in *. intros a Ha.
      now apply word_not_line_feed, Hw.
    + exact Hf.
    + now destruct (word_at (rev skipped)).
    + apply word_at_first_line. now destruct (word_at post).
  - intros [pre [mid [post [Hl [Hf [Hpre Hpost]]]]]].
    destruct (Hmid mid Hf) as [Hw Hn].
    destruct (first_line_rest l) as [rest [Hrest Hr]].
    exists pre, mid, (post ++ rest)%list.
    rewrite app_nil_r.
    rewrite (word_at_app mid (post ++ rest) Hw Hn).
    rewrite (word_at_rev_app mid (rev pre) Hw Hn).
    repeat split.
    + rewrite Hrest at 1. rewrite Hl. now rewrite <- !app_assoc.
    + pose proof (first_line_no_line_feed l) as H. rewrite Hl in H.
      now apply Forall_app in H.
    + exact Hf.
    + now rewrite Hpre.
    + destruct post; simpl in *; [now rewrite Hr|now rewrite Hpost].
Qed.

(** A lookahead for the empty word. *)
Lemma lookahead_empty_word (l : list ascii) :
  (exists skipped mid post,
      l = (skipped ++ mid ++ post)%list
      /\ Forall Spec.not_line_feed skipped
      /\ Spec.fold mid = Spec.fold []
      /\ at_boundary (rev skipped ++ [], mid ++ post)%list = true
      /\ at_boundary (rev mid ++ rev skipped ++ [], post)%list = true)
  <-> (exists a, In a (Spec.first_line l) /\ Js.is_word a = true).
Proof.
  unfold at_boundary, passed, ahead; cbn [fst snd]. split.
  - intros [skipped [mid [post [Hl [Hnl [Hf [B1 _]]]]]]].
    destruct mid; [|discriminate]. simpl in *. rewrite app_nil_r in B1.
    rewrite Hl, first_line_app by assumption.
    destruct (word_at (rev skipped)) eqn:E1.
    + destruct (rev skipped) as [|a r] eqn:Er; [discriminate|].
      exists a. split; [|exact E1].
      apply in_or_app. left. apply in_rev. rewrite Er. now left.
    + simpl in B1. destruct post as [|a post]; [discriminate|].
      exists a. split; [|exact B1].
      apply in_or_app. right. simpl.
      rewrite (word_not_line_feed a B1). now left.
  - intros Hex. apply first_word_char in Hex.
    destruct Hex as [pre [a [post [Hl [Ha Hpre]]]]].
    destruct (first_line_rest l) as [rest [Hrest _]].
    exists pre, [], (a :: post ++ rest)%list. simpl.
    rewrite app_nil_r, Hpre, Ha. repeat split.
    + rewrite Hrest at 1. rewrite Hl. now rewrite <- app_assoc.
    + pose proof (first_line_no_line_feed l) as H. rewrite Hl in H.
      now apply Forall_app in H.
Qed.

Lemma lookahead_occurs (kw w title : string) :
  In w (words_of kw) ->
  accepts true (lookahead w) ([], list_ascii_of_string title) = true
  <-> Spec.occurs_as_word w (Spec.first_line (list_ascii_of_string title)).
Proof.
  intros Hin. rewrite lookahead_accepts. cbn [passed ahead fst snd].
  pose proof (words_of_plain kw w Hin) as Hplain.
  destruct w as [|x w].
  - apply lookahead_empty_word.
  - apply (lookahead_word (list_ascii_of_string (String x w))); [exact Hplain|discriminate].
Qed.

(** *** Keywords *)

Lemma split_space_nonempty (s : string) : Js.split_space s <> [].
Proof.
  destruct s as [|a r]; simpl; [discriminate|].
  destruct (a =? " ")%char; [discriminate|].
  destruct (Js.split_space r); discriminate.
Qed.

Lemma split_space_concat (s : string) :
  String.concat " " (Js.split_space s) = s.
Proof.
  induction s as [|a r IH]; simpl; [reflexivity|].
  pose proof (split_space_nonempty r) as Hne.
  destruct (Js.split_space r) as [|w ws]; [congruence|].
  destruct (a =? " ")%char eqn:E.
  - apply Ascii.eqb_eq in E. subst a. simpl in *. now rewrite IH.
  - destruct ws; simpl in *; now rewrite <- IH.
Qed.

Lemma split_space_pieces (s : string) :
  Forall (fun p => ~ In " "%char (list_ascii_of_string p)) (Js.split_space s).
Proof.
  induction s as [|a r IH]; simpl.
  - constructor; [intros []|constructor].
  - destruct (a =? " ")%char eqn:E.
    + constructor; [intros []|exact IH].
    + destruct (Js.split_space r) as [|w ws].
      * constructor; [|constructor]. simpl. intros [H|[]].
        subst a. discriminate E.
      * inversion IH; subst. constructor; [|assumption].
        simpl. intros [H|H]; [subst a; discriminate E|auto].
Qed.

Lemma matches_keywords (data : QueryString) (d : Doc) :
  matches (query_of data) d
  = matches (query_of (Spec.without_keywords data)) d
    && holds (title_regex (query_of data))
         (fun ro => field_is (title d) (test (snd ro) (fst ro))).
Proof.
  assert (Hg : genre_of (Spec.without_keywords data) = genre_of data)
    by reflexivity.
  unfold matches, query_of; cbn [id_is num_seasons_gt title_regex genres_has].
  rewrite Hg.
  change (title_of (Spec.without_keywords data)) with (@None (regex * bool)).
  cbn [holds].
  repeat match goal with
         | |- context [holds ?c ?f] => destruct (holds c f)
         | |- context [field_is ?c ?f] => destruct (field_is c f)
         end; reflexivity.
Qed.

(** C4, as the code has it. The keywords are cut at every single space
    character, and at nothing else; each piece is stripped of what is
    not a letter or a digit and put in small letters, which may leave it
    empty.  A title passes the resulting constraint exactly when, in its
    first line, every piece that is not empty stands as a whole word,
    whatever the case and the order, and, if some piece is empty, there
    is at least one word character. *)
Theorem keywords_constraint_of_request (data : QueryString) (kw : string) :
  keywords data = Some kw -> kw <> EmptyString ->
  title_regex (query_of data) = Some (keywords_regex kw, true)
  /\ String.concat " " (Js.split_space kw) = kw
  /\ Forall (fun p => ~ In " "%char (list_ascii_of_string p)) (Js.split_space kw)
  /\ words_of kw = map Spec.sanitize (Js.split_space kw)
  /\ (forall t,
        test true (keywords_regex kw) t = true
        <-> Forall (fun w => Spec.occurs_as_word w
                               (Spec.first_line (list_ascii_of_string t)))
              (words_of kw))
  /\ (forall d,
        matches (query_of data) d = true
        <-> matches (query_of (Spec.without_keywords data)) d = true
            /\ exists t, title d = Some t
                         /\ Forall (fun w => Spec.occurs_as_word w
                                               (Spec.first_line (list_ascii_of_string t)))
                              (words_of kw)).
Proof.
  intros Hkw Hne.
  assert (Htitle : title_regex (query_of data) = Some (keywords_regex kw, true)).
  { unfold query_of, title_of; cbn [title_regex]. rewrite Hkw.
    destruct kw; [congruence|reflexivity]. }
  assert (Hiff : forall t,
             test true (keywords_regex kw) t = true
             <-> Forall (fun w => Spec.occurs_as_word w
                                    (Spec.first_line (list_ascii_of_string t)))
                   (words_of kw)).
  { intros t. rewrite keywords_regex_at_start, forallb_forall, Forall_forall.
    split; intros H w Hw; apply (lookahead_occurs kw w t Hw); auto. }
  split; [exact Htitle|].
  split; [apply split_space_concat|].
  split; [apply split_space_pieces|].
  split; [reflexivity|].
  split; [exact Hiff|].
  intros d. rewrite (matches_keywords data d), Htitle.
  rewrite andb_true_iff. apply and_iff_compat_l.
  cbn [holds fst snd]. destruct (title d) as [t|]; cbn [field_is].
  - rewrite Hiff. split.
    + intros H. exists t. auto.
    + intros [t' [E H]]. now injection E as <-.
  - split; [discriminate|]. intros [t [E _]]. discriminate E.
Qed.

Lemma keywords_constraint_of_request_witness :
  test true (keywords_regex "dead walking") "The Walking Dead" = true
  <-> Forall (fun w => Spec.occurs_as_word w
                         (Spec.first_line (list_ascii_of_string "The Walking Dead")))
        (words_of "dead walking").
Proof.
  refine (proj1 (proj2 (proj2 (proj2 (proj2
            (keywords_constraint_of_request
               {| order := None; keywords := Some "dead walking";
                  sort := None; genre := None |}
               "dead walking" eq_refl _)))))
            "The Walking Dead").
  discriminate.
Defined.

(** The claim as stated fails: on the keywords "walking" and "dead" set
    apart by a tabulation, a title that has both words is refused. *)
Lemma keywords_apart_by_tabulation :
  ~ (test true (keywords_regex Sample.tabbed) "The Walking Dead" = true
     <-> Spec.keywords_match Sample.tabbed "The Walking Dead" = true).
Proof.
  intros [_ H]. specialize (H eq_refl). discriminate H.
Qed.

(** The two keywords are taken for the one word "walkingdead". *)
Lemma keywords_tabbed_one_word :
  Spec.tokens Sample.tabbed = ["walking"; "dead"]
  /\ words_of Sample.tabbed = ["walkingdead"].
Proof. split; reflexivity. Qed.

(** *** Numeric pages *)

Lemma numeric_skip_spaces (s : string) :
  Spec.numeric (Js.skip_spaces s) = true -> Spec.numeric s = true.
Proof.
  induction s as [|a r IH]; simpl; [auto|].
  destruct (Js.is_space a) eqn:E; [|auto].
  intros H. unfold Spec.numeric_char. rewrite E. simpl. auto.
Qed.

Lemma numeric_blank (s : string) : Js.blank s = true -> Spec.numeric s = true.
Proof.
  unfold Js.blank. intros H. apply numeric_skip_spaces.
  now destruct (Js.skip_spaces s).
Qed.

Lemma numeric_digits_prefix (r : string) (acc x : option Z) (rest : string) :
  Js.digits_prefix acc r = (x, rest) ->
  Spec.numeric rest = true -> Spec.numeric r = true.
Proof.
  revert acc. induction r as [|a r IH]; intros acc; simpl.
  - intros H. injection H as _ <-. auto.
  - destruct (Js.is_digit a) eqn:E.
    + intros H Hrest. unfold Spec.numeric_char. rewrite E, orb_true_r. simpl.
      eapply IH; eauto.
    + intros H. injection H as _ <-. auto.
Qed.

Lemma numeric_read_digits (r : string) (acc v : Z) (k0 k : nat) (rest : string) :
  Js.read_digits acc k0 r = (v, k, rest) ->
  Spec.numeric rest = true -> Spec.numeric r = true.
Proof.
  revert acc k0. induction r as [|a r IH]; intros acc k0; simpl.
  - intros H. injection H as _ _ <-. auto.
  - destruct (Js.is_digit a) eqn:E.
    + intros H Hrest. unfold Spec.numeric_char. rewrite E, orb_true_r. simpl.
      eapply IH; eauto.
    + intros H. injection H as _ _ <-. auto.
Qed.

Lemma numeric_read_sign (t : string) :
  Spec.numeric (snd (Js.read_sign t)) = true -> Spec.numeric t = true.
Proof.
  destruct t as [|a r]; [auto|].
  destruct a as [[] [] [] [] [] [] [] []]; simpl; auto.
Qed.

Lemma numeric_strip_prefix (p s rest : string) :
  Spec.numeric p = true -> Js.strip_prefix p s = Some rest ->
  Spec.numeric rest = true -> Spec.numeric s = true.
Proof.
  revert s. induction p as [|a p IH]; intros s Hp; simpl.
  - intros H. now injection H as <-.
  - simpl in Hp. apply andb_true_iff in Hp. destruct Hp as [Ha Hp].
    destruct s as [|b s]; [discriminate|].
    destruct (a =? b)%char eqn:E; [|discriminate].
    apply Ascii.eqb_eq in E. subst b. intros H Hrest. simpl.
    rewrite Ha. simpl. now apply IH.
Qed.

Lemma numeric_read_exponent (s : string) (e : Z) (rest : string) :
  Js.read_exponent s = Some (e, rest) ->
  Spec.numeric rest = true -> Spec.numeric s = true.
Proof.
  unfold Js.read_exponent. destruct s as [|a r].
  - intros H. now injection H as _ <-.
  - destruct ((a =? "e")%char || (a =? "E")%char) eqn:E.
    + assert (Ha : Spec.numeric_char a = true).
      { apply orb_true_iff in E.
        destruct E as [E|E]; apply Ascii.eqb_eq in E; now subst a. }
      pose proof (numeric_read_sign r) as Hsign.
      destruct (Js.read_sign r) as [sign r1]. cbn [snd] in Hsign.
      destruct (Js.read_digits 0 0 r1) as [[v k] r2] eqn:Ed.
      destruct k as [|k]; [discriminate|].
      intros H Hrest. injection H as _ <-. simpl. rewrite Ha. simpl.
      apply Hsign. now apply (numeric_read_digits r1 0 v 0 (S k) r2).
    + intros H. now injection H as _ <-.
Qed.

Lemma numeric_read_decimal (s : string) (m p : Z) (rest : string) :
  Js.read_decimal s = Some (m, p, rest) ->
  Spec.numeric rest = true -> Spec.numeric s = true.
Proof.
  unfold Js.read_decimal.
  destruct (Js.read_digits 0 0 s) as [[iv icount] r1] eqn:Ei.
  intros H Hrest.
  apply (numeric_read_digits s 0 iv 0 icount r1 Ei).
  assert (Hpoint : forall fv fcount r2,
             match r1 with
             | String "." r => Js.read_digits iv 0 r
             | _ => (iv, O, r1)
             end = (fv, fcount, r2) ->
             Spec.numeric r2 = true -> Spec.numeric r1 = true).
  { intros fv fcount r2. destruct r1 as [|a r]; [intros E; now injection E as _ _ <-|].
    destruct a as [[] [] [] [] [] [] [] []];
      try (intros E; now injection E as _ _ <-).
    intros E Hr2. simpl.
    now apply (numeric_read_digits r iv fv 0 fcount r2). }
  destruct (match r1 with
            | String "." r => Js.read_digits iv 0 r
            | _ => (iv, O, r1)
            end) as [[fv fcount] r2] eqn:Ef.
  apply (Hpoint fv fcount r2 eq_refl).
  destruct (icount + fcount)%nat; [discriminate|].
  destruct (Js.read_exponent r2) as [[e r3]|] eqn:Ee; [|discriminate].
  injection H as _ _ <-.
  now apply (numeric_read_exponent r2 e r3).
Qed.

Lemma numeric_radix_digit (radix : Z) (a : ascii) (v : Z) :
  Js.radix_digit radix a = Some v -> Spec.numeric_char a = true.
Proof.
  unfold Js.radix_digit.
  destruct (Js.is_digit a) eqn:E1.
  { intros _. unfold Spec.numeric_char. now rewrite E1, orb_true_r. }
  destruct (Js.between 97 102 a) eqn:E2.
  { intros _. clear E1. revert E2.
    destruct a as [[] [] [] [] [] [] [] []]; intros H;
      first [discriminate H | reflexivity]. }
  destruct (Js.between 65 70 a) eqn:E3.
  { intros _. clear E1 E2. revert E3.
    destruct a as [[] [] [] [] [] [] [] []]; intros H;
      first [discriminate H | reflexivity]. }
  now rewrite Z.ltb_irrefl.
Qed.

Lemma numeric_read_radix_digits (radix : Z) (s : string) (acc x : option Z)
      (rest : string) :
  Js.read_radix_digits radix acc s = (x, rest) ->
  Spec.numeric rest = true -> Spec.numeric s = true.
Proof.
  revert acc. induction s as [|a r IH]; intros acc; simpl.
  - intros H. injection H as _ <-. auto.
  - destruct (Js.radix_digit radix a) as [v|] eqn:E.
    + intros H Hrest. rewrite (numeric_radix_digit radix a v E). simpl.
      eapply IH; eauto.
    + intros H. injection H as _ <-. auto.
Qed.

Lemma numeric_radix_of (a : ascii) (radix : Z) :
  Js.radix_of a = Some radix -> Spec.numeric_char a = true.
Proof.
  destruct a as [[] [] [] [] [] [] [] []]; intros H;
    first [discriminate H | reflexivity].
Qed.

Lemma numeric_read_radix (t : string) (x : Js.number) :
  Js.read_radix t = Some x -> x <> Js.NaN -> Spec.numeric t = true.
Proof.
  destruct t as [|c t]; [discriminate|].
  destruct t as [|a r]; [destruct c as [[] [] [] [] [] [] [] []]; discriminate|].
  destruct c as [[] [] [] [] [] [] [] []]; try discriminate.
  cbn [Js.read_radix].
  destruct (Js.radix_of a) as [radix|] eqn:Ea; [|discriminate].
  intros H Hx. injection H as H.
  destruct (Js.read_radix_digits radix None r) as [[v|] rest] eqn:Ed;
    [|congruence].
  destruct (Js.blank rest) eqn:Eb; [|congruence].
  cbn [Spec.numeric]. rewrite (numeric_radix_of a radix Ea).
  change (Spec.numeric_char "0") with true. cbn [andb].
  apply (numeric_read_radix_digits radix r None (Some v) rest Ed).
  now apply numeric_blank.
Qed.

(** A string that is read as a number holds nothing but the characters
    of numbers. *)
Lemma stringToNumber_numeric (s : string) :
  Js.stringToNumber s <> Js.NaN -> Spec.numeric s = true.
Proof.
  unfold Js.stringToNumber. intros H. apply numeric_skip_spaces.
  destruct (Js.skip_spaces s) as [|a t] eqn:Es; [reflexivity|].
  destruct (Js.read_radix (String a t)) as [x|] eqn:Er.
  { now apply (numeric_read_radix _ x). }
  apply numeric_read_sign.
  destruct (Js.read_sign (String a t)) as [sign r]. cbn [snd].
  destruct (Js.strip_prefix "Infinity" r) as [rest|] eqn:Ei.
  { destruct (Js.blank rest) eqn:Eb; [|congruence].
    apply (numeric_strip_prefix "Infinity" r rest); auto.
    now apply numeric_blank. }
  destruct (Js.read_decimal r) as [[[m p] rest]|] eqn:Ed; [|congruence].
  destruct (Js.blank rest) eqn:Eb; [|congruence].
  apply (numeric_read_decimal r m p rest Ed).
  now apply numeric_blank.
Qed.

Lemma numeric_char_not_l (a : ascii) :
  Js.fold_char a = "l"%char -> Spec.numeric_char a = false.
Proof.
  destruct a as [[] [] [] [] [] [] [] []]; intros H;
    first [discriminate H | reflexivity].
Qed.

Lemma numeric_in (s : string) (a : ascii) :
  Spec.numeric s = true -> In a (list_ascii_of_string s) ->
  Spec.numeric_char a = true.
Proof.
  induction s as [|x r IH]; simpl; [contradiction|].
  rewrite andb_true_iff. intros [Hx Hr] [<-|Hin]; auto.
Qed.

Lemma numeric_not_all (s : string) :
  Spec.numeric s = true -> matches_i re_all s = false.
Proof.
  intros H.
  apply not_true_is_false. intros Hall. apply re_all_iff in Hall.
  destruct Hall as [pre [mid [post [Hs Hf]]]].
  destruct mid as [|m0 [|m mid]]; [discriminate|discriminate|].
  simpl in Hf. injection Hf as _ Hm _.
  assert (Hin : In m (list_ascii_of_string s)).
  { rewrite Hs. apply in_or_app. right. right. now left. }
  pose proof (numeric_in s m H Hin) as Hnum.
  rewrite (numeric_char_not_l m Hm) in Hnum. discriminate.
Qed.

(** A page parameter that reads as a number does not ask for the full
    listing. *)
Lemma toNumber_not_all (s : string) (i : Z) :
  Js.toNumber s = Some i -> matches_i re_all s = false.
Proof.
  unfold Js.toNumber. intros H.
  apply numeric_not_all, stringToNumber_numeric.
  intros E. rewrite E in H. discriminate H.
Qed.

(** The offset of an integer page index. *)
Lemma integer_offset (x : Js.number) (i : Z) (pageSize : positive) :
  Js.integer_of x = Some i ->
  Js.integer_of (Js.times (Js.minus x 1) (Z.pos pageSize))
  = Some ((i - 1) * Z.pos pageSize).
Proof.
  destruct x as [| |n d]; try discriminate. cbn [Js.integer_of].
  destruct (Z.eqb_spec (n mod Z.pos d) 0) as [Hmod|]; [|discriminate].
  intros H. injection H as <-.
  cbn [Js.minus]. unfold Js.rounded.
  assert (Hsub : (n - 1 * Z.pos d) mod Z.pos d = 0).
  { rewrite Zminus_mod, Hmod, Z_mod_mult. reflexivity. }
  rewrite Hsub. cbn [Z.eqb Js.times]. unfold Js.rounded.
  rewrite Z.mod_1_r. cbn [Z.eqb Js.integer_of].
  rewrite Z.mod_1_r. cbn [Z.eqb]. rewrite !Z.div_1_r.
  f_equal. f_equal.
  replace (n - 1 * Z.pos d) with (n + (- 1) * Z.pos d) by lia.
  rewrite Z.div_add by lia. lia.
Qed.

(** *** The filters and the sort, in the specification's words *)

Lemma starts_with_iff (w l rest : list ascii) :
  Spec.starts_with w l = Some rest
  <-> exists mid, l = (mid ++ rest)%list /\ Spec.fold mid = Spec.fold w.
Proof.
  revert l. induction w as [|x w IH]; intros l; simpl.
  - split.
    + intros H. injection H as <-. now exists [].
    + intros [mid [-> H]]. destruct mid; [reflexivity|discriminate].
  - destruct l as [|a l].
    + split; [discriminate|].
      intros [mid [H1 H2]]. destruct mid; discriminate.
    + destruct (Ascii.eqb_spec (Js.fold_char x) (Js.fold_char a)) as [E|E].
      * rewrite IH. split.
        -- intros [mid [-> H]]. exists (a :: mid). simpl. split; [reflexivity|].
           now rewrite H, E.
        -- intros [mid [H1 H2]]. destruct mid as [|b mid]; [discriminate|].
           simpl in H1, H2. injection H1 as <- ->. injection H2 as _ H2.
           now exists mid.
      * split; [discriminate|].
        intros [mid [H1 H2]]. destruct mid as [|b mid]; [discriminate|].
        simpl in H1, H2. injection H1 as <- ->. injection H2 as H2 _.
        congruence.
Qed.

Lemma find_text_iff (t l : list ascii) :
  Spec.find_text t l = true
  <-> exists pre mid post, l = (pre ++ mid ++ post)%list /\ Spec.fold mid = Spec.fold t.
Proof.
  induction l as [|a l IH]; simpl.
  - destruct (Spec.starts_with t []) as [rest|] eqn:E.
    + apply starts_with_iff in E. destruct E as [mid [E1 E2]].
      split; [|reflexivity]. intros _. now exists [], mid, rest.
    + split; [discriminate|].
      intros [pre [mid [post [H1 H2]]]].
      destruct pre; [|discriminate]. simpl in H1.
      assert (Spec.starts_with t [] = Some post)
        by (apply starts_with_iff; now exists mid).
      congruence.
  - destruct (Spec.starts_with t (a :: l)) as [rest|] eqn:E.
    + apply starts_with_iff in E. destruct E as [mid [E1 E2]].
      split; [|reflexivity]. intros _. now exists [], mid, rest.
    + rewrite IH. split.
      * intros [pre [mid [post [-> H2]]]]. now exists (a :: pre), mid, post.
      * intros [pre [mid [post [H1 H2]]]].
        destruct pre as [|b pre].
        -- simpl in H1.
           assert (Spec.starts_with t (a :: l) = Some post)
             by (apply starts_with_iff; now exists mid).
           congruence.
        -- simpl in H1. injection H1 as <- ->. now exists pre, mid, post.
Qed.

Lemma has_text_iff (t s : string) :
  Spec.has_text t s = true <-> Spec.contains_text t s.
Proof. apply find_text_iff. Qed.







Lemma existsb_in {A} (p : A -> bool) (l : list A) :
  existsb p l = true <-> exists a, In a l /\ p a = true.
Proof. apply existsb_exists. Qed.








Lemma map_same {A B} (f g : A -> B) (l : list A) :
  (forall a, f a = g a) -> map f l = map g l.
Proof. intros H. apply map_ext. exact H. Qed.




(** A page index need not be an integer: with two entries to the page,
    the index [1.5] skips one entry. *)
Lemma getPage_fractional_page :
  Js.toNumber "1.5" = None
  /\ Spec.skipped 2 (Js.stringToNumber "1.5") = Some 1
  /\ handle (getPage 2 (Sample.request "1.5" Sample.search) Sample.library)
     = ([ResJson (Docs [Spec.catalog_facing Sample.walking;
                        Spec.catalog_facing Sample.expanse])], inr tt).
Proof. repeat split. Qed.

(** *** The full listing, and when it is given *)

Lemma full_listing_given (pageSize : positive) (p : string) :
  Spec.contains_text "all" p -> Spec.lists_in_full (getPage pageSize) p.
Proof.
  intros Htext req db Hp Hup.
  assert (Hall : matches_i re_all (page (params req)) = true)
    by (rewrite Hp; apply matches_i_lit; exact Htext).
  exists (sort_docs [ (By_title, Some (-1)) ]
            (map Spec.catalog_facing (filter Spec.qualifies (shows db)))).
  split; [apply Permutation_sym, sort_docs_perm|]. split.
  - apply strongly_sorted_weaken
      with (R := fun a b => doc_leb [ (By_title, Some (-1)) ] a b = true).
    + apply by_title_descending.
    + apply sort_docs_ordered.
  - intros data. unfold handle, getPage. cbn [params]. rewrite Hall.
    unfold catch_, then_, exec, aggregate, res_json. rewrite Hup.
    cbn [run_stages run_stage forallb snd direction_ok andb].
    rewrite filter_query_qualifies.
    now rewrite (map_same _ _ _ projections_fields).
Qed.

(** C3, as the code has it. [getPage] lists in full exactly when the
    page parameter contains the text "all", in any case and anywhere in
    it: then, and only then, it answers every request on a store that
    answers with every qualifying entry, each one once, in its
    catalog-facing form, ordered by title from the greatest to the
    least, whatever the keywords, the genre, the sort and the order of
    the request. *)
Theorem getPage_full_listing (pageSize : positive) (p : string) :
  Spec.lists_in_full (getPage pageSize) p <-> Spec.contains_text "all" p.
Proof.
  split; [|apply full_listing_given].
  intros Hfull. apply matches_i_lit. fold re_all.
  destruct (matches_i re_all p) eqn:Hall; [reflexivity|exfalso].
  destruct (Hfull (Sample.request p Sample.nowhere) Sample.catalog eq_refl eq_refl)
    as [docs [Hperm [_ Hsent]]].
  specialize (Hsent Sample.nowhere).
  apply Permutation_length in Hperm.
  assert (Hnone : docs = []).
  { revert Hsent. unfold handle, getPage. cbn [params page Sample.request].
    rewrite Hall.
    unfold catch_, then_, exec, aggregate, res_json, res_jfson.
    cbn [reachable Sample.catalog run_stages run_stage Express.query].
    change (forallb (fun kv => direction_ok (snd kv)) (sort_of Sample.nowhere))
      with true. cbv iota.
    change (filter (matches (query_of Sample.nowhere))
              (sort_docs (sort_of Sample.nowhere) (shows Sample.catalog)))
      with (@nil Doc).
    cbn [map].
    destruct (Js.integer_of _) as [k|]; [|discriminate].
    destruct (0 <=? k); [|discriminate].
    rewrite skipn_nil, firstn_nil. cbn [Z.ltb Z.compare].
    intros H. now injection H as <-. }
  subst docs. discriminate Hperm.
Qed.

Lemma getPage_full_listing_witness :
  Spec.lists_in_full (getPage 2) "ALL" /\ ~ Spec.lists_in_full (getPage 2) "7".
Proof.
  split.
  - apply (proj2 (getPage_full_listing 2 "ALL")).
    exists [], (list_ascii_of_string "ALL"), []. split; reflexivity.
  - intros H. apply (proj1 (getPage_full_listing 2 "7")) in H.
    apply has_text_iff in H. discriminate H.
Defined.

(** The claim as stated fails: the page parameter "gallery" is not the
    word "all", and [getPage] lists in full on it. *)
Lemma getPage_full_listing_inside_a_word :
  ~ (Spec.lists_in_full (getPage 2) "gallery" <-> Spec.same_text "gallery" "all").
Proof.
  intros [H _].
  assert (Hfull : Spec.lists_in_full (getPage 2) "gallery").
  { apply full_listing_given.
    exists (list_ascii_of_string "g"), (list_ascii_of_string "all"),
      (list_ascii_of_string "ery").
    split; reflexivity. }
  specialize (H Hfull). discriminate H.
Qed.

(** On that parameter the listing is the full one, and the keywords of
    the request are ignored. *)
Lemma getPage_gallery_lists_all :
  handle (getPage 2 (Sample.request "gallery"
                       {| order := None; keywords := Some "thrones";
                          sort := None; genre := None |})
                  Sample.catalog)
  = ([ResJson (Docs (map (project _projections)
                       [Sample.walking; Sample.expanse; Sample.thrones]))],
     inr tt).
Proof. reflexivity. Qed.

(* ===================================================================== *)
(** ** Further properties of the handlers *)
(* ===================================================================== *)

(** *** Page indices, written and read *)

Lemma digits_prefix_uint (d : Decimal.uint) (a : nat) :
  Js.digits_prefix (Some (Z.of_nat a)) (NilEmpty.string_of_uint d)
  = (Some (Z.of_nat (Nat.of_uint_acc d a)), EmptyString).
Proof.
  revert a. induction d; intros a; [reflexivity|..];
    cbn [NilEmpty.string_of_uint Js.digits_prefix Nat.of_uint_acc];
    match goal with
    | |- context [Js.is_digit ?c] => change (Js.is_digit c) with true
    end; cbv iota;
    rewrite Nat.tail_mul_spec;
    match goal with
    | |- Js.digits_prefix (Some ?z) _ = (Some (Z.of_nat (Nat.of_uint_acc _ ?n)), _) =>
        replace z with (Z.of_nat n)
          by (cbv [Js.digit_value Js.code]; simpl N_of_ascii; lia)
    end; apply IHd.
Qed.

Lemma to_uint_nonnil (n : nat) : Nat.to_uint n <> Decimal.Nil.
Proof.
  rewrite <- (DecimalNat.Unsigned.of_to n) at 1.
  rewrite DecimalNat.Unsigned.to_of. apply DecimalFacts.unorm_nonnil.
Qed.

Lemma show_nat_digits (n : nat) :
  Js.show_nat n = NilEmpty.string_of_uint (Nat.to_uint n).
Proof.
  unfold Js.show_nat, NilZero.string_of_uint.
  pose proof (to_uint_nonnil n). now destruct (Nat.to_uint n).
Qed.

Lemma show_nat_starts (n : nat) :
  exists c r, Js.show_nat n = String c r /\ Js.is_digit c = true.
Proof.
  rewrite show_nat_digits. pose proof (to_uint_nonnil n) as H.
  destruct (Nat.to_uint n); [congruence|..]; simpl; eauto.
Qed.

Lemma digit_starts_number (c : ascii) (r : string) :
  Js.is_digit c = true ->
  Js.skip_spaces (String c r) = String c r
  /\ Js.read_sign (String c r) = (1, String c r)
  /\ Js.digits_prefix None (String c r) = Js.digits_prefix (Some 0) (String c r).
Proof.
  destruct c as [[] [] [] [] [] [] [] []]; intros H;
    first [discriminate H | repeat split].
Qed.

Lemma show_nat_reads (n : nat) :
  Js.skip_spaces (Js.show_nat n) = Js.show_nat n
  /\ Js.read_sign (Js.show_nat n) = (1, Js.show_nat n)
  /\ Js.digits_prefix None (Js.show_nat n) = (Some (Z.of_nat n), EmptyString).
Proof.
  destruct (show_nat_starts n) as [c [r [E Hc]]].
  destruct (digit_starts_number c r Hc) as [H1 [H2 H3]].
  rewrite E, H1, H2, H3, <- E. repeat split.
  rewrite show_nat_digits.
  pose proof (digits_prefix_uint (Nat.to_uint n) 0) as H.
  change (Nat.of_uint_acc (Nat.to_uint n) 0) with (Nat.of_uint (Nat.to_uint n)) in H.
  rewrite DecimalNat.Unsigned.of_to in H. exact H.
Qed.

Lemma read_digits_uint (d : Decimal.uint) (a : nat) (k : nat) :
  Js.read_digits (Z.of_nat a) k (NilEmpty.string_of_uint d)
  = (Z.of_nat (Nat.of_uint_acc d a), (k + Decimal.nb_digits d)%nat, EmptyString).
Proof.
  revert a k. induction d; intros a k;
    [cbn; now rewrite Nat.add_0_r|..];
    cbn [NilEmpty.string_of_uint Js.read_digits Nat.of_uint_acc Decimal.nb_digits];
    match goal with
    | |- context [Js.is_digit ?c] => change (Js.is_digit c) with true
    end; cbv iota;
    rewrite Nat.tail_mul_spec, <- Nat.add_succ_comm;
    match goal with
    | |- Js.read_digits ?z _ _ = (Z.of_nat (Nat.of_uint_acc _ ?n), _, _) =>
        replace z with (Z.of_nat n)
          by (cbv [Js.digit_value Js.code]; simpl N_of_ascii; lia)
    end; apply IHd.
Qed.

Lemma uint_digits (d : Decimal.uint) :
  forallb Js.is_digit (list_ascii_of_string (NilEmpty.string_of_uint d)) = true.
Proof. induction d; simpl; auto. Qed.

Lemma digits_no_radix (s : string) :
  forallb Js.is_digit (list_ascii_of_string s) = true -> Js.read_radix s = None.
Proof.
  destruct s as [|c [|a r]]; [reflexivity| |].
  - intros _. unfold Js.read_radix. by_all_chars c.
  - simpl. intros H. apply andb_true_iff in H. destruct H as [_ H].
    apply andb_true_iff in H. destruct H as [H _].
    assert (Ha : Js.radix_of a = None).
    { revert H. destruct a as [[] [] [] [] [] [] [] []]; intros H;
        first [discriminate H | reflexivity]. }
    unfold Js.read_radix. rewrite Ha.
    destruct c as [[] [] [] [] [] [] [] []]; reflexivity.
Qed.

Lemma digit_not_infinity (c : ascii) (r : string) :
  Js.is_digit c = true -> Js.strip_prefix "Infinity" (String c r) = None.
Proof.
  destruct c as [[] [] [] [] [] [] [] []]; intros H;
    first [discriminate H | reflexivity].
Qed.

Lemma stringToNumber_show_nat (n : nat) :
  Js.stringToNumber (Js.show_nat n) = Js.Finite (Z.of_nat n) 1.
Proof.
  destruct (show_nat_reads n) as [H1 [H2 _]].
  destruct (show_nat_starts n) as [c [r [E Hc]]].
  assert (Hrad : Js.read_radix (Js.show_nat n) = None)
    by (apply digits_no_radix; rewrite show_nat_digits; apply uint_digits).
  assert (Hdec : Js.read_decimal (Js.show_nat n) = Some (Z.of_nat n, 0, EmptyString)).
  { unfold Js.read_decimal. rewrite show_nat_digits.
    pose proof (read_digits_uint (Nat.to_uint n) 0 0) as Hd.
    change (Nat.of_uint_acc (Nat.to_uint n) 0) with (Nat.of_uint (Nat.to_uint n)) in Hd.
    rewrite DecimalNat.Unsigned.of_to in Hd.
    change (Z.of_nat 0) with 0 in Hd. rewrite Hd.
    pose proof (to_uint_nonnil n) as Hnil.
    destruct (Decimal.nb_digits (Nat.to_uint n)) as [|k] eqn:Ek.
    { destruct (Nat.to_uint n); [congruence|discriminate..]. }
    reflexivity. }
  unfold Js.stringToNumber. rewrite H1.
  rewrite E in *. rewrite Hrad, H2, (digit_not_infinity c r Hc), Hdec.
  cbn [Js.blank Js.skip_spaces Js.decimal Z.leb Z.compare].
  f_equal. change (10 ^ 0) with 1. lia.
Qed.

Lemma toNumber_show_nat (n : nat) : Js.toNumber (Js.show_nat n) = Some (Z.of_nat n).
Proof.
  unfold Js.toNumber. rewrite stringToNumber_show_nat.
  cbn [Js.integer_of]. rewrite Z.mod_1_r, Z.div_1_r. reflexivity.
Qed.

(** X1. The index that [getShows] writes in a page identifier reads
    back as the same number, through the conversion of [getPage] and
    through [parseInt], and is never taken for a request of the full
    listing. *)
Theorem page_index_round_trip (n : nat) :
  Js.toNumber (Js.show_nat n) = Some (Z.of_nat n)
  /\ Js.parseInt (Js.show_nat n) = Some (Z.of_nat n)
  /\ matches_i re_all (Js.show_nat n) = false.
Proof.
  split; [apply toNumber_show_nat|]. split.
  - destruct (show_nat_reads n) as [H1 [H2 H3]].
    unfold Js.parseInt. rewrite H1, H2, H3. simpl.
    now destruct (Z.of_nat n).
  - apply (toNumber_not_all _ _ (toNumber_show_nat n)).
Qed.

(** *** The two pipelines of [getPage] *)

Lemma getPage_numbered_run (pageSize : positive) (req : Request) (db : Store) :
  matches_i re_all (page (params req)) = false ->
  handle (getPage pageSize req db)
  = match aggregate db (Pages.numbered_stages pageSize req) with
    | inl _ => Pages.unanswered
    | inr l => ([ResJson (Docs l)], inr tt)
    end.
Proof.
  intros Hall. unfold handle, getPage. rewrite Hall.
  unfold catch_, then_, exec, res_json, res_jfson.
  change (aggregate db _) with (aggregate db (Pages.numbered_stages pageSize req)).
  now destruct (aggregate db (Pages.numbered_stages pageSize req)).
Qed.

Lemma getPage_full_run (pageSize : positive) (req : Request) (db : Store) :
  matches_i re_all (page (params req)) = true ->
  handle (getPage pageSize req db)
  = match aggregate db Pages.full_stages with
    | inl e => ([Next (StoreError e)], inr tt)
    | inr l => ([ResJson (Docs l)], inr tt)
    end.
Proof.
  intros Hall. unfold handle, getPage. rewrite Hall.
  unfold catch_, then_, exec, res_json, next.
  change (aggregate db _) with (aggregate db Pages.full_stages).
  now destruct (aggregate db Pages.full_stages).
Qed.

Lemma numbered_stages_run (pageSize : positive) (req : Request) (n : nat) (l : list Doc) :
  run_stages n (Pages.numbered_stages pageSize req) l
  = if direction_ok (order_of (Express.query req)) then
      match Pages.offset_of pageSize req with
      | Some k =>
          if 0 <=? k
          then inr (firstn (Pos.to_nat pageSize)
                      (skipn (Z.to_nat k)
                         (map (project _projections)
                            (filter (matches (query_of (Express.query req)))
                               (sort_docs (sort_of (Express.query req)) l)))))
          else inl BadSkip
      | None => inl BadSkip
      end
    else inl BadSortOrder.
Proof.
  unfold Pages.numbered_stages. cbn [run_stages run_stage].
  rewrite sort_of_directions.
  destruct (direction_ok _); [|reflexivity].
  destruct (Pages.offset_of pageSize req) as [k|]; [|reflexivity].
  destruct (0 <=? k); reflexivity.
Qed.

Lemma full_stages_run (n : nat) (l : list Doc) :
  run_stages n Pages.full_stages l
  = inr (sort_docs [ (By_title, Some (-1)) ]
           (map (project _projections) (filter Spec.qualifies l))).
Proof.
  unfold Pages.full_stages. cbn [run_stages run_stage forallb snd direction_ok andb].
  now rewrite filter_query_qualifies.
Qed.

(** X2. On a numbered page nothing is sent and nothing reaches [next]
    when the store cannot be reached, when the direction read from
    [order] is neither 1 nor -1, or when the page index is below 1: the
    chain ends rejected by the call of [res.jfson]. *)
Theorem getPage_numbered_unanswered (pageSize : positive) (req : Request) (db : Store) :
  matches_i re_all (page (params req)) = false ->
  reachable db = false
  \/ direction_ok (order_of (Express.query req)) = false
  \/ (exists i, Js.toNumber (page (params req)) = Some i /\ i < 1) ->
  handle (getPage pageSize req db) = Pages.unanswered.
Proof.
  intros Hall Hwhy. rewrite getPage_numbered_run by assumption.
  unfold aggregate. destruct (reachable db); [|reflexivity].
  rewrite numbered_stages_run.
  destruct Hwhy as [H|[H|[i [Hi Hlt]]]]; [discriminate| |].
  - now rewrite H.
  - destruct (direction_ok _); [|reflexivity].
    unfold Pages.offset_of. rewrite (integer_offset _ i pageSize Hi).
    destruct (Z.leb_spec 0 ((i - 1) * Z.pos pageSize)); [nia|reflexivity].
Qed.

Lemma getPage_numbered_unanswered_witness :
  handle (getPage 50 (Sample.request "-3"
                        {| order := Some "up"; keywords := None;
                           sort := None; genre := None |})
                  Sample.catalog)
  = Pages.unanswered.
Proof.
  apply (getPage_numbered_unanswered 50
           (Sample.request "-3"
              {| order := Some "up"; keywords := None; sort := None; genre := None |})
           Sample.catalog).
  - reflexivity.
  - right. right. exists (-3). split; [reflexivity|lia].
Defined.

(** X3. A numbered page never calls [next]: either one list of entries
    is sent, or nothing is called at all and the chain ends rejected. *)
Theorem getPage_numbered_never_next (pageSize : positive) (req : Request) (db : Store) :
  matches_i re_all (page (params req)) = false ->
  handle (getPage pageSize req db) = Pages.unanswered
  \/ exists docs, handle (getPage pageSize req db) = ([ResJson (Docs docs)], inr tt).
Proof.
  intros Hall. rewrite getPage_numbered_run by assumption.
  destruct (aggregate db _) as [e|l]; [now left|right; now exists l].
Qed.

Lemma getPage_numbered_never_next_witness :
  handle (getPage 2 (Sample.request "1" Sample.no_parameters) Sample.catalog)
  = Pages.unanswered
  \/ exists docs,
      handle (getPage 2 (Sample.request "1" Sample.no_parameters) Sample.catalog)
      = ([ResJson (Docs docs)], inr tt).
Proof.
  apply (getPage_numbered_never_next 2 (Sample.request "1" Sample.no_parameters)
           Sample.catalog).
  reflexivity.
Defined.

(** X4. [getShows], [getShow], [getRandomShow] and the full listing of
    [getPage] always end fulfilled after exactly one call: [next] with
    the error of the store when it cannot be reached, [res.json]
    otherwise. *)
Theorem handlers_answer_once (pageSize : positive) (req : Request) (db : Store) :
  Pages.answered_once db (handle (getShows pageSize req db))
  /\ Pages.answered_once db (handle (getShow req db))
  /\ Pages.answered_once db (handle (getRandomShow req db))
  /\ (matches_i re_all (page (params req)) = true ->
      Pages.answered_once db (handle (getPage pageSize req db))).
Proof.
  unfold Pages.answered_once. repeat split.
  - unfold handle, getShows, catch_, then_, exec, count, res_json, next.
    destruct (reachable db); eexists; repeat split; eauto; discriminate.
  - unfold handle, getShow, catch_, then_, exec, findOne, res_json, next.
    destruct (reachable db); eexists; repeat split; eauto; discriminate.
  - unfold handle, getRandomShow, catch_, then_, exec, aggregate, res_json, next.
    destruct (reachable db); cbn [run_stages run_stage Z.ltb Z.compare];
      eexists; repeat split; eauto; discriminate.
  - intros Hall. rewrite getPage_full_run by assumption.
    unfold aggregate. destruct (reachable db).
    + rewrite full_stages_run. eexists; repeat split; eauto; discriminate.
    + eexists; repeat split; eauto; discriminate.
Qed.

Lemma handlers_answer_once_witness :
  Pages.answered_once Sample.unreachable_catalog
    (handle (getPage 2 (Sample.request "all" Sample.no_parameters)
                    Sample.unreachable_catalog)).
Proof.
  apply (proj2 (proj2 (proj2
           (handlers_answer_once 2 (Sample.request "all" Sample.no_parameters)
              Sample.unreachable_catalog)))).
  reflexivity.
Defined.

(** *** What a page holds *)

Lemma listing_sorted_then_filtered (data : QueryString) (db : Store) :
  map (project _projections)
    (filter (matches (query_of data)) (sort_docs (sort_of data) (shows db)))
  = Pages.listing data db.
Proof. unfold Pages.listing. now rewrite filter_sort_docs. Qed.

Lemma listing_length (data : QueryString) (db : Store) :
  Z.of_nat (List.length (Pages.listing data db)) = Pages.selected data db.
Proof.
  unfold Pages.listing, Pages.selected. rewrite length_map.
  f_equal. symmetry. apply Permutation_length, sort_docs_perm.
Qed.

(** What a numbered page sends, whatever the request: a window of the
    listing, or nothing. *)
Lemma getPage_numbered_sent (pageSize : positive) (req : Request) (db : Store) :
  matches_i re_all (page (params req)) = false ->
  Pages.sent (handle (getPage pageSize req db)) = []
  \/ exists k,
      Pages.offset_of pageSize req = Some (Z.of_nat k)
      /\ reachable db = true
      /\ direction_ok (order_of (Express.query req)) = true
      /\ Pages.sent (handle (getPage pageSize req db))
         = firstn (Pos.to_nat pageSize)
             (skipn k (Pages.listing (Express.query req) db)).
Proof.
  intros Hall. rewrite getPage_numbered_run by assumption.
  unfold aggregate. destruct (reachable db); [|now left].
  rewrite numbered_stages_run.
  destruct (direction_ok _); [|now left].
  destruct (Pages.offset_of pageSize req) as [k|]; [|now left].
  destruct (Z.leb_spec 0 k) as [Hk|Hk]; [|now left].
  right. exists (Z.to_nat k). rewrite Z2Nat.id by assumption.
  repeat split. cbn [Pages.sent fst].
  now rewrite listing_sorted_then_filtered.
Qed.

Lemma page_request_offset (pageSize : positive) (i : nat) (data : QueryString) :
  Pages.offset_of pageSize (Pages.page_request i data)
  = Some ((Z.of_nat i - 1) * Z.pos pageSize).
Proof.
  unfold Pages.offset_of, Pages.page_request; cbn [params page].
  apply integer_offset, toNumber_show_nat.
Qed.

Lemma page_request_numbered (i : nat) (data : QueryString) :
  matches_i re_all (page (params (Pages.page_request i data))) = false.
Proof. apply (toNumber_not_all _ _ (toNumber_show_nat i)). Qed.

(** The page of index [i >= 1], on a store that answers and with a
    direction that it accepts. *)
Lemma getPage_page_request_sent (pageSize : positive) (i : nat)
      (data : QueryString) (db : Store) :
  reachable db = true -> direction_ok (order_of data) = true -> (1 <= i)%nat ->
  Pages.sent (handle (getPage pageSize (Pages.page_request i data) db))
  = firstn (Pos.to_nat pageSize)
      (skipn ((i - 1) * Pos.to_nat pageSize) (Pages.listing data db)).
Proof.
  intros Hup Hdir Hi.
  rewrite getPage_numbered_run by apply page_request_numbered.
  unfold aggregate. rewrite Hup, numbered_stages_run.
  cbn [Pages.page_request Express.query]. rewrite Hdir.
  change (Pages.offset_of pageSize _)
    with (Pages.offset_of pageSize (Pages.page_request i data)).
  rewrite page_request_offset.
  destruct (Z.leb_spec 0 ((Z.of_nat i - 1) * Z.pos pageSize)) as [_|H]; [|nia].
  cbn [Pages.sent fst]. rewrite listing_sorted_then_filtered.
  f_equal. f_equal.
  rewrite Z2Nat.inj_mul by lia.
  replace (Z.to_nat (Z.of_nat i - 1)) with (i - 1)%nat by lia.
  now rewrite Z2Nat.inj_pos.
Qed.

(** X5. Whatever a page holds comes from the store: every entry that
    [getPage] sends is the projection of a stored entry with
    [num_seasons > 0] and, on a numbered page, of one that satisfies the
    query of the request. *)
Theorem getPage_sends_stored_entries (pageSize : positive) (req : Request)
        (db : Store) (d : Doc) :
  In d (Pages.sent (handle (getPage pageSize req db))) ->
  exists d0,
    In d0 (shows db)
    /\ d = project _projections d0
    /\ Spec.qualifies d0 = true
    /\ (matches_i re_all (page (params req)) = false ->
        matches (query_of (Express.query req)) d0 = true).
Proof.
  destruct (matches_i re_all (page (params req))) eqn:Hall; intros Hd.
  - rewrite getPage_full_run in Hd by assumption.
    unfold aggregate in Hd. destruct (reachable db); [|contradiction].
    rewrite full_stages_run in Hd. cbn [Pages.sent fst] in Hd.
    eapply Permutation_in in Hd; [|apply Permutation_sym, sort_docs_perm].
    apply in_map_iff in Hd. destruct Hd as [d0 [<- Hd0]].
    apply filter_In in Hd0. destruct Hd0 as [Hin Hq].
    exists d0. repeat split; auto. discriminate.
  - destruct (getPage_numbered_sent pageSize req db Hall) as [E|[k [_ [_ [_ E]]]]];
      rewrite E in Hd; [contradiction|].
    apply in_firstn, in_skipn in Hd. unfold Pages.listing in Hd.
    apply in_map_iff in Hd. destruct Hd as [d0 [<- Hd0]].
    eapply Permutation_in in Hd0; [|apply Permutation_sym, sort_docs_perm].
    apply filter_In in Hd0. destruct Hd0 as [Hin Hq].
    exists d0. repeat split; auto.
    now apply (query_of_qualifies (Express.query req)).
Qed.

Lemma getPage_sends_stored_entries_witness :
  exists d0,
    In d0 (shows Sample.catalog)
    /\ project _projections Sample.expanse = project _projections d0
    /\ Spec.qualifies d0 = true
    /\ (matches_i re_all "2" = false ->
        matches (query_of Sample.no_parameters) d0 = true).
Proof.
  apply (getPage_sends_stored_entries 2
           (Sample.request "2" Sample.no_parameters) Sample.catalog
           (project _projections Sample.expanse)).
  simpl. now left.
Defined.

(** X6. No entry that [getPage] sends carries [latest_episode] or the
    episodes, on a numbered page as in the full listing. *)
Theorem getPage_hides_internal_fields (pageSize : positive) (req : Request) (db : Store) :
  Forall (fun d => latest_episode d = None /\ episodes d = None)
    (Pages.sent (handle (getPage pageSize req db))).
Proof.
  assert (Hproj : forall l : list Doc,
             Forall (fun d => latest_episode d = None /\ episodes d = None)
               (map (project _projections) l)).
  { intros l. rewrite Forall_forall. intros d Hd.
    apply in_map_iff in Hd. destruct Hd as [d0 [<- _]]. now split. }
  destruct (matches_i re_all (page (params req))) eqn:Hall.
  - rewrite getPage_full_run by assumption.
    unfold aggregate. destruct (reachable db); [|constructor].
    rewrite full_stages_run. cbn [Pages.sent fst].
    rewrite Forall_forall. intros d Hd.
    eapply Permutation_in in Hd; [|apply Permutation_sym, sort_docs_perm].
    revert d Hd. apply Forall_forall, Hproj.
  - destruct (getPage_numbered_sent pageSize req db Hall) as [E|[k [_ [_ [_ E]]]]];
      rewrite E; [constructor|].
    rewrite Forall_forall. intros d Hd. apply in_firstn, in_skipn in Hd.
    revert d Hd. apply Forall_forall, Hproj.
Qed.

(** X7. A numbered page never holds more than [pageSize] entries. *)
Theorem getPage_page_size (pageSize : positive) (req : Request) (db : Store) :
  matches_i re_all (page (params req)) = false ->
  (List.length (Pages.sent (handle (getPage pageSize req db))) <= Pos.to_nat pageSize)%nat.
Proof.
  intros Hall.
  destruct (getPage_numbered_sent pageSize req db Hall) as [E|[k [_ [_ [_ E]]]]];
    rewrite E; [simpl; lia|].
  apply firstn_le_length.
Qed.

Lemma getPage_page_size_witness :
  (List.length (Pages.sent (handle (getPage 2 (Sample.request "1" Sample.no_parameters)
                                          Sample.catalog))) <= Pos.to_nat 2)%nat.
Proof.
  apply (getPage_page_size 2 (Sample.request "1" Sample.no_parameters) Sample.catalog).
  reflexivity.
Defined.

(** *** Pages side by side *)

Lemma windows_join {A} (size n : nat) (l : list A) :
  (List.length l <= n * size)%nat ->
  List.concat (map (fun i => firstn size (skipn ((i - 1) * size) l)) (seq 1 n)) = l.
Proof.
  revert l. induction n as [|n IH]; intros l Hlen.
  - destruct l; [reflexivity|simpl in Hlen; lia].
  - cbn [seq map List.concat].
    change ((1 - 1) * size)%nat with 0%nat. cbn [skipn].
    rewrite <- seq_shift, map_map.
    transitivity (firstn size l ++ skipn size l)%list; [|apply firstn_skipn].
    f_equal.
    etransitivity; [|apply (IH (skipn size l)); rewrite length_skipn; lia].
    f_equal. apply map_ext_in. intros i Hi. apply in_seq in Hi.
    rewrite skipn_skipn. f_equal. f_equal. nia.
Qed.

(** X8. The numbered pages share out the listing: put end to end, the
    pages 1 to [n] of a request are the entries that its query selects,
    projected, in the order of its sort, each one once, as soon as [n]
    pages are enough to hold them. *)
Theorem getPage_pages_join (pageSize : positive) (data : QueryString)
        (db : Store) (n : nat) :
  reachable db = true ->
  direction_ok (order_of data) = true ->
  Pages.selected data db <= Z.of_nat n * Z.pos pageSize ->
  List.concat (map (fun i => Pages.sent
                          (handle (getPage pageSize (Pages.page_request i data) db)))
            (seq 1 n))
  = Pages.listing data db.
Proof.
  intros Hup Hdir Hn.
  rewrite <- (windows_join (Pos.to_nat pageSize) n (Pages.listing data db)).
  - f_equal. apply map_ext_in. intros i Hi. apply in_seq in Hi.
    apply getPage_page_request_sent; auto; lia.
  - rewrite <- listing_length in Hn. lia.
Qed.

Lemma getPage_pages_join_witness :
  List.concat (map (fun i => Pages.sent
                          (handle (getPage 2 (Pages.page_request i Sample.no_parameters)
                                     Sample.catalog)))
            (seq 1 2))
  = Pages.listing Sample.no_parameters Sample.catalog.
Proof.
  apply (getPage_pages_join 2 Sample.no_parameters Sample.catalog 2);
    first [reflexivity | vm_compute; discriminate].
Defined.

Lemma window_nonempty {A} (size k : nat) (l : list A) :
  (0 < size)%nat ->
  firstn size (skipn k l) <> [] <-> (k < List.length l)%nat.
Proof.
  intros Hsize. split.
  - intros H. destruct (Nat.lt_ge_cases k (List.length l)) as [|Hge]; [assumption|].
    rewrite skipn_all2 in H by assumption. now destruct size.
  - intros Hlt E. apply (f_equal (@List.length A)) in E.
    rewrite length_firstn, length_skipn in E. simpl in E. lia.
Qed.

Lemma page_request_zero (pageSize : positive) (data : QueryString) (db : Store) :
  Pages.sent (handle (getPage pageSize (Pages.page_request 0 data) db)) = [].
Proof.
  rewrite getPage_numbered_run by apply page_request_numbered.
  unfold aggregate. destruct (reachable db); [|reflexivity].
  rewrite numbered_stages_run.
  destruct (direction_ok _); [|reflexivity].
  now rewrite page_request_offset.
Qed.

(** X9. The page of index [i] holds something exactly when [i >= 1] and
    the pages before it have not used up the entries that the query
    selects. *)
Theorem getPage_page_nonempty (pageSize : positive) (i : nat)
        (data : QueryString) (db : Store) :
  reachable db = true ->
  direction_ok (order_of data) = true ->
  Pages.sent (handle (getPage pageSize (Pages.page_request i data) db)) <> []
  <-> (1 <= i)%nat /\ (Z.of_nat i - 1) * Z.pos pageSize < Pages.selected data db.
Proof.
  intros Hup Hdir. destruct i as [|i].
  - rewrite page_request_zero.
    split; [intros H; now contradiction H|lia].
  - rewrite getPage_page_request_sent by (auto; lia).
    rewrite window_nonempty by lia.
    rewrite <- listing_length. split; intros H; [split|]; nia.
Qed.

Lemma getPage_page_nonempty_witness :
  Pages.sent (handle (getPage 2 (Pages.page_request 2 Sample.no_parameters)
                             Sample.catalog)) <> []
  <-> (1 <= 2)%nat /\ (Z.of_nat 2 - 1) * 2 < Pages.selected Sample.no_parameters Sample.catalog.
Proof.
  apply (getPage_page_nonempty 2 2 Sample.no_parameters Sample.catalog); reflexivity.
Defined.

Lemma page_id_injective (i j : nat) : Spec.page_id i = Spec.page_id j -> i = j.
Proof.
  unfold Spec.page_id. simpl. intros H. injection H as H.
  apply (f_equal Js.toNumber) in H. rewrite !toNumber_show_nat in H.
  injection H as H. lia.
Qed.

Lemma getShows_listed (pageSize : positive) (req : Request) (db : Store) :
  reachable db = true ->
  Pages.listed (handle (getShows pageSize req db))
  = Spec.page_ids
      (Z.to_nat (ceil_div (Z.of_nat (List.length (filter Spec.qualifies (shows db))))
                          (Z.pos pageSize))).
Proof.
  intros Hup.
  set (c := Z.of_nat (List.length (filter Spec.qualifies (shows db)))).
  assert (Hc : 0 <= c) by (unfold c; lia).
  pose proof (ceil_div_nonneg c (Z.pos pageSize) Hc (Pos2Z.is_pos pageSize)) as Hn.
  unfold handle, getShows, catch_, then_, exec, count, res_json.
  rewrite Hup, filter_query_qualifies. fold c. cbn [Pages.listed fst app].
  rewrite push_pages_seq by lia.
  unfold Spec.page_ids. simpl.
  now replace (ceil_div c (Z.pos pageSize) + 1 - 1) with (ceil_div c (Z.pos pageSize)) by lia.
Qed.

Lemma unfiltered_query (data : QueryString) (d : Doc) :
  Pages.unfiltered data -> matches (query_of data) d = Spec.qualifies d.
Proof.
  intros [Hk Hg]. rewrite <- matches_query_qualifies.
  unfold matches, query_of, title_of, genre_of. now rewrite Hk, Hg.
Qed.

Lemma unfiltered_selected (data : QueryString) (db : Store) :
  Pages.unfiltered data ->
  Pages.selected data db = Z.of_nat (List.length (filter Spec.qualifies (shows db))).
Proof.
  intros H. unfold Pages.selected. f_equal. f_equal.
  apply filter_ext. intros d. now apply unfiltered_query.
Qed.

(** X10. [getShows] and [getPage] agree: for a request without keywords
    and without genre, the identifiers that [getShows] lists are those
    of the pages that hold something; no listed page is empty and no
    page with entries is left out. *)
Theorem listed_pages_hold_entries (pageSize : positive) (req : Request)
        (data : QueryString) (db : Store) (i : nat) :
  reachable db = true ->
  direction_ok (order_of data) = true ->
  Pages.unfiltered data ->
  In (Spec.page_id i) (Pages.listed (handle (getShows pageSize req db)))
  <-> Pages.sent (handle (getPage pageSize (Pages.page_request i data) db)) <> [].
Proof.
  intros Hup Hdir Hdata.
  rewrite getShows_listed by assumption.
  assert (Hpage :
            Pages.sent (handle (getPage pageSize (Pages.page_request i data) db)) <> []
            <-> (1 <= i)%nat
                /\ (Z.of_nat i - 1) * Z.pos pageSize
                   < Z.of_nat (List.length (filter Spec.qualifies (shows db)))).
  { rewrite <- (unfiltered_selected data db Hdata), <- listing_length.
    destruct i as [|i].
    - rewrite page_request_zero. split; [intros H; now contradiction H|lia].
    - rewrite getPage_page_request_sent by (auto; lia).
      rewrite window_nonempty by lia. split; intros H; [split|]; nia. }
  rewrite Hpage. clear Hpage.
  set (c := Z.of_nat (List.length (filter Spec.qualifies (shows db)))).
  assert (Hc : 0 <= c) by (unfold c; lia).
  pose proof (ceil_div_nonneg c (Z.pos pageSize) Hc (Pos2Z.is_pos pageSize)) as Hn.
  pose proof (ceil_div_bounds c (Z.pos pageSize) (Pos2Z.is_pos pageSize)) as Hb.
  unfold Spec.page_ids. rewrite in_map_iff. split.
  - intros [j [Hj Hin]]. apply page_id_injective in Hj. subst j.
    apply in_seq in Hin. split; [lia|]. nia.
  - intros [Hi Hlt]. exists i. split; [reflexivity|].
    apply in_seq. split; [lia|].
    assert (Z.of_nat i <= ceil_div c (Z.pos pageSize)) by nia. lia.
Qed.

Lemma listed_pages_hold_entries_witness :
  In (Spec.page_id 2)
     (Pages.listed (handle (getShows 2 (Sample.request "1" Sample.no_parameters)
                              Sample.catalog)))
  <-> Pages.sent (handle (getPage 2 (Pages.page_request 2 Sample.no_parameters)
                                 Sample.catalog)) <> [].
Proof.
  apply (listed_pages_hold_entries 2 (Sample.request "1" Sample.no_parameters)
           Sample.no_parameters Sample.catalog 2);
    first [reflexivity | split; reflexivity].
Defined.

Lemma nodup_map_injective {A B} (f : A -> B) (l : list A) :
  (forall x y, f x = f y -> x = y) -> NoDup l -> NoDup (map f l).
Proof.
  intros Hf. induction 1 as [|x l Hx _ IH]; simpl; constructor; [|exact IH].
  intros Hin. apply in_map_iff in Hin. destruct Hin as [y [Hy Hin]].
  apply Hf in Hy. now subst y.
Qed.

(** X11. [getShows] never lists a page twice. *)
Theorem getShows_pages_distinct (pageSize : positive) (req : Request) (db : Store) :
  NoDup (Pages.listed (handle (getShows pageSize req db))).
Proof.
  destruct (reachable db) eqn:Hup.
  - rewrite getShows_listed by assumption. unfold Spec.page_ids.
    apply nodup_map_injective; [|apply seq_NoDup].
    intros i j. apply page_id_injective.
  - unfold handle, getShows, catch_, then_, exec, count, next. rewrite Hup.
    constructor.
Qed.

(** *** The full listing and the pages *)

Lemma full_listing_sent (pageSize : positive) (data : QueryString) (db : Store) :
  reachable db = true ->
  Pages.sent (handle (getPage pageSize (Pages.all_request data) db))
  = sort_docs [ (By_title, Some (-1)) ]
      (map (project _projections) (filter Spec.qualifies (shows db))).
Proof.
  intros Hup. rewrite getPage_full_run by reflexivity.
  unfold aggregate. now rewrite Hup, full_stages_run.
Qed.

(** X12. The full listing holds what the pages hold: it is a
    rearrangement, by title, of the pages 1 to [n] of a request without
    keywords and without genre put end to end, when [n] pages are enough
    to hold every entry with [num_seasons > 0]. *)
Theorem full_listing_rearranges_pages (pageSize : positive) (data data' : QueryString)
        (db : Store) (n : nat) :
  reachable db = true ->
  direction_ok (order_of data) = true ->
  Pages.unfiltered data ->
  Pages.selected data db <= Z.of_nat n * Z.pos pageSize ->
  Permutation
    (Pages.sent (handle (getPage pageSize (Pages.all_request data') db)))
    (List.concat (map (fun i => Pages.sent
                            (handle (getPage pageSize (Pages.page_request i data) db)))
              (seq 1 n))).
Proof.
  intros Hup Hdir Hdata Hn.
  rewrite full_listing_sent by assumption.
  assert (Hjoin : List.concat
                    (map (fun i => Pages.sent
                                     (handle (getPage pageSize
                                                (Pages.page_request i data) db)))
                       (seq 1 n))
                  = Pages.listing data db).
  { rewrite <- (windows_join (Pos.to_nat pageSize) n (Pages.listing data db)).
    - f_equal. apply map_ext_in. intros i Hi. apply in_seq in Hi.
      apply getPage_page_request_sent; auto; lia.
    - rewrite <- listing_length in Hn. lia. }
  rewrite Hjoin. unfold Pages.listing.
  rewrite <- sort_docs_perm.
  apply Permutation_map.
  rewrite <- sort_docs_perm.
  rewrite (filter_ext _ _ (fun d => unfiltered_query data d Hdata)).
  reflexivity.
Qed.

Lemma full_listing_rearranges_pages_witness :
  Permutation
    (Pages.sent (handle (getPage 2 (Pages.all_request Sample.no_parameters)
                           Sample.catalog)))
    (List.concat (map (fun i => Pages.sent
                            (handle (getPage 2 (Pages.page_request i Sample.no_parameters)
                                       Sample.catalog)))
              (seq 1 2))).
Proof.
  apply (full_listing_rearranges_pages 2 Sample.no_parameters Sample.no_parameters
           Sample.catalog 2);
    first [reflexivity | split; reflexivity | vm_compute; discriminate].
Defined.

(** X13. When no stored entry has [num_seasons > 0], [getShows] lists
    no page and [getPage] sends no entry, whatever the page and the
    parameters of the request. *)
Theorem nothing_qualifies_nothing_listed (pageSize : positive) (req : Request) (db : Store) :
  (forall d, In d (shows db) -> Spec.qualifies d = false) ->
  Pages.listed (handle (getShows pageSize req db)) = []
  /\ Pages.sent (handle (getPage pageSize req db)) = []
  /\ (reachable db = true ->
      handle (getShows pageSize req db) = ([ResJson (Pages [])], inr tt)).
Proof.
  intros Hnone.
  assert (Hfilter : filter Spec.qualifies (shows db) = []).
  { induction (shows db) as [|x l IH]; simpl; [reflexivity|].
    rewrite (Hnone x) by now left. apply IH. intros d Hd. apply Hnone. now right. }
  assert (Hshows : reachable db = true ->
                   handle (getShows pageSize req db) = ([ResJson (Pages [])], inr tt)).
  { intros Hup. unfold handle, getShows, catch_, then_, exec, count, res_json.
    now rewrite Hup, filter_query_qualifies, Hfilter. }
  split; [|split; [|exact Hshows]].
  - destruct (reachable db) eqn:Hup; [now rewrite Hshows|].
    unfold handle, getShows, catch_, then_, exec, count, next. now rewrite Hup.
  - destruct (matches_i re_all (page (params req))) eqn:Hall.
    + rewrite getPage_full_run by assumption.
      unfold aggregate. destruct (reachable db); [|reflexivity].
      now rewrite full_stages_run, Hfilter.
    + destruct (getPage_numbered_sent pageSize req db Hall) as [E|[k [_ [_ [_ E]]]]];
        rewrite E; [reflexivity|].
      unfold Pages.listing.
      assert (Hq : filter (matches (query_of (Express.query req))) (shows db) = []).
      { rewrite <- (filter_within _ Spec.qualifies _
                      (query_of_qualifies (Express.query req))).
        now rewrite Hfilter. }
      rewrite Hq. simpl. now rewrite skipn_nil, firstn_nil.
Qed.

Lemma nothing_qualifies_nothing_listed_witness :
  Pages.listed (handle (getShows 2 (Sample.request "1" Sample.no_parameters)
                          {| reachable := true; shows := [Sample.pilot]; draw := 0 |})) = []
  /\ Pages.sent (handle (getPage 2 (Sample.request "1" Sample.no_parameters)
                           {| reachable := true; shows := [Sample.pilot]; draw := 0 |})) = []
  /\ (true = true ->
      handle (getShows 2 (Sample.request "1" Sample.no_parameters)
                {| reachable := true; shows := [Sample.pilot]; draw := 0 |})
      = ([ResJson (Pages [])], inr tt)).
Proof.
  apply (nothing_qualifies_nothing_listed 2 (Sample.request "1" Sample.no_parameters)
           {| reachable := true; shows := [Sample.pilot]; draw := 0 |}).
  simpl. intros d [<-|[]]. reflexivity.
Defined.

(** *** The sample *)

(** X14. On a store that answers and holds at least one entry,
    [getRandomShow] sends one stored entry, as it is stored: nothing is
    filtered and nothing is projected away. *)
Theorem getRandomShow_sends_stored_entry (req : Request) (db : Store) :
  reachable db = true -> shows db <> [] ->
  exists d, In d (shows db)
            /\ handle (getRandomShow req db) = ([ResJson (OneDoc d)], inr tt).
Proof.
  intros Hup Hne.
  unfold handle, getRandomShow, catch_, then_, exec, aggregate, res_json.
  rewrite Hup. cbn [run_stages run_stage Z.ltb Z.compare].
  unfold sample, rotate.
  set (k := (draw db mod Nat.max 1 (List.length (shows db)))%nat).
  assert (Hk : (k < List.length (shows db))%nat).
  { unfold k. destruct (shows db) as [|x l]; [congruence|].
    simpl List.length. rewrite Nat.max_r by lia.
    apply Nat.mod_upper_bound. lia. }
  destruct (nth_error (shows db) k) as [d|] eqn:Hd;
    [|apply nth_error_None in Hd; lia].
  exists d. split; [now apply nth_error_In with k|].
  apply nth_error_split in Hd. destruct Hd as [l1 [l2 [E Hlen]]].
  rewrite E, skipn_app, <- Hlen, skipn_all, Nat.sub_diag. reflexivity.
Qed.

Lemma getRandomShow_sends_stored_entry_witness :
  exists d, In d (shows Sample.catalog)
            /\ handle (getRandomShow (Sample.request_for "tt0944947") Sample.catalog)
               = ([ResJson (OneDoc d)], inr tt).
Proof.
  apply (getRandomShow_sends_stored_entry (Sample.request_for "tt0944947")
           Sample.catalog); [reflexivity|discriminate].
Defined.

(** *** The order of a page *)

Lemma strongly_sorted_firstn {A} (R : A -> A -> Prop) (k : nat) (l : list A) :
  StronglySorted R l -> StronglySorted R (firstn k l).
Proof.
  intros H. revert k. induction H as [|a l Hl IH Ha]; intros [|k]; simpl;
    try constructor; auto.
  rewrite Forall_forall in *. intros x Hx. apply Ha. now apply in_firstn in Hx.
Qed.

Lemma strongly_sorted_skipn {A} (R : A -> A -> Prop) (k : nat) (l : list A) :
  StronglySorted R l -> StronglySorted R (skipn k l).
Proof.
  intros H. revert k. induction H as [|a l Hl IH Ha]; intros [|k]; simpl;
    try constructor; auto.
Qed.

Lemma strongly_sorted_map {A B} (R : A -> A -> Prop) (R' : B -> B -> Prop)
      (f : A -> B) (l : list A) :
  (forall a b, R a b -> R' (f a) (f b)) ->
  StronglySorted R l -> StronglySorted R' (map f l).
Proof.
  intros Hf. induction 1 as [|a l Hl IH Ha]; simpl; constructor; auto.
  rewrite Forall_forall in *. intros y Hy.
  apply in_map_iff in Hy. destruct Hy as [x [<- Hx]]. auto.
Qed.

Lemma strongly_sorted_across {A} (R : A -> A -> Prop) (k : nat) (l : list A) (a b : A) :
  StronglySorted R l -> In a (firstn k l) -> In b (skipn k l) -> R a b.
Proof.
  intros H. revert k. induction H as [|x l Hl IH Hx]; intros k Ha Hb.
  - now rewrite firstn_nil in Ha.
  - destruct k as [|k]; [contradiction|]. simpl in Ha, Hb.
    destruct Ha as [<-|Ha].
    + rewrite Forall_forall in Hx. apply Hx. now apply in_skipn in Hb.
    + now apply IH with k.
Qed.

Lemma value_at_projected (p : sort_path) (d : Doc) :
  Pages.visible_path p = true ->
  value_at p (project _projections d) = value_at p d.
Proof. destruct p; intros H; first [discriminate H | reflexivity]. Qed.

Lemma compare_docs_projected (s : SortSpec) (a b : Doc) :
  Pages.visible s = true ->
  compare_docs s (project _projections a) (project _projections b)
  = compare_docs s a b.
Proof.
  induction s as [|[p o] r IH]; [reflexivity|].
  unfold Pages.visible. cbn [forallb fst compare_docs].
  rewrite andb_true_iff. intros [Hp Hr].
  rewrite !value_at_projected by assumption.
  now rewrite (IH Hr).
Qed.

Lemma listing_ordered (data : QueryString) (db : Store) :
  Pages.visible (sort_of data) = true ->
  Spec.ordered (sort_of data) (Pages.listing data db).
Proof.
  intros Hvis. unfold Pages.listing, Spec.ordered.
  apply strongly_sorted_map with (R := fun a b => doc_leb (sort_of data) a b = true);
    [|apply sort_docs_ordered].
  intros a b. unfold doc_leb. now rewrite compare_docs_projected.
Qed.

(** X15. A numbered page comes in the order of the sort of the request:
    its entries are the projections of entries of the store that the
    query of the request selects and that follow one another in that
    order, and the page itself is in that order unless the sort is by
    [latest_episode], which the projection takes away. *)
Theorem getPage_page_in_order (pageSize : positive) (req : Request) (db : Store) :
  matches_i re_all (page (params req)) = false ->
  (exists l,
      Pages.sent (handle (getPage pageSize req db)) = map (project _projections) l
      /\ Forall (fun d => In d (shows db)
                         /\ matches (query_of (Express.query req)) d = true) l
      /\ Spec.ordered (sort_of (Express.query req)) l)
  /\ (Pages.visible (sort_of (Express.query req)) = true ->
      Spec.ordered (sort_of (Express.query req))
        (Pages.sent (handle (getPage pageSize req db)))).
Proof.
  intros Hall.
  destruct (getPage_numbered_sent pageSize req db Hall) as [E|[k [_ [_ [_ E]]]]];
    rewrite E.
  - split; [exists []; repeat split; constructor|intros _; constructor].
  - split.
    + exists (firstn (Pos.to_nat pageSize)
                (skipn k (sort_docs (sort_of (Express.query req))
                            (filter (matches (query_of (Express.query req)))
                               (shows db))))).
      split; [|split].
      * unfold Pages.listing. now rewrite skipn_map, firstn_map.
      * rewrite Forall_forall. intros d Hd.
        apply in_firstn, in_skipn in Hd.
        apply (Permutation_in d (Permutation_sym (sort_docs_perm _ _))) in Hd.
        apply filter_In in Hd. exact Hd.
      * apply strongly_sorted_firstn, strongly_sorted_skipn, sort_docs_ordered.
    + intros Hvis.
      apply strongly_sorted_firstn, strongly_sorted_skipn.
      now apply listing_ordered.
Qed.

Lemma getPage_page_in_order_witness :
  Spec.ordered (sort_of Sample.no_parameters)
    (Pages.sent (handle (getPage 2 (Sample.request "1" Sample.no_parameters)
                           Sample.catalog))).
Proof.
  apply (proj2 (getPage_page_in_order 2 (Sample.request "1" Sample.no_parameters)
                  Sample.catalog eq_refl)).
  reflexivity.
Defined.

(** X16. The order runs on from one page to the next: an entry of an
    earlier page never comes after an entry of a later page in the order
    of the sort. *)
Theorem getPage_pages_in_order (pageSize : positive) (data : QueryString)
        (db : Store) (i j : nat) (a b : Doc) :
  reachable db = true ->
  direction_ok (order_of data) = true ->
  Pages.visible (sort_of data) = true ->
  (1 <= i < j)%nat ->
  In a (Pages.sent (handle (getPage pageSize (Pages.page_request i data) db))) ->
  In b (Pages.sent (handle (getPage pageSize (Pages.page_request j data) db))) ->
  doc_leb (sort_of data) a b = true.
Proof.
  intros Hup Hdir Hvis Hij Ha Hb.
  rewrite getPage_page_request_sent in Ha, Hb by (auto; lia).
  set (size := Pos.to_nat pageSize) in *.
  apply (strongly_sorted_across (fun x y => doc_leb (sort_of data) x y = true)
           ((j - 1) * size) (Pages.listing data db));
    [now apply listing_ordered| |now apply in_firstn in Hb].
  rewrite firstn_skipn_comm in Ha. apply in_skipn in Ha.
  replace ((j - 1) * size)%nat
    with (((i - 1) * size + size) + ((j - 1) * size - ((i - 1) * size + size)))%nat
    by nia.
  rewrite <- (firstn_skipn ((i - 1) * size + size)
                (firstn _ (Pages.listing data db))).
  apply in_or_app. left.
  rewrite firstn_firstn, Nat.min_l by lia. exact Ha.
Qed.

Lemma getPage_pages_in_order_witness :
  doc_leb (sort_of Sample.no_parameters)
    (project _projections Sample.walking) (project _projections Sample.expanse) = true.
Proof.
  apply (getPage_pages_in_order 2 Sample.no_parameters Sample.catalog 1 2
           (project _projections Sample.walking)
           (project _projections Sample.expanse));
    first [reflexivity | lia | (simpl; auto)].
Defined.

(** *** Keywords, once more *)

Lemma split_space_app (a b : string) :
  Js.split_space (a ++ String " " b) = (Js.split_space a ++ Js.split_space b)%list.
Proof.
  induction a as [|x a IH]; [reflexivity|].
  cbn [append Js.split_space]. rewrite IH.
  pose proof (split_space_nonempty a) as Hne.
  destruct (Js.split_space a) as [|w ws]; [congruence|].
  now destruct (x =? " ")%char.
Qed.

Lemma words_of_app (a b : string) :
  words_of (a ++ String " " b) = (words_of a ++ words_of b)%list.
Proof. unfold words_of. now rewrite split_space_app, map_app. Qed.

Lemma keywords_regex_app (a b t : string) :
  test true (keywords_regex (a ++ String " " b)) t
  = test true (keywords_regex a) t && test true (keywords_regex b) t.
Proof. now rewrite !keywords_regex_at_start, words_of_app, forallb_app. Qed.

Lemma matches_with_keywords (kw : string) (data : QueryString) (d : Doc) :
  kw <> EmptyString ->
  matches (query_of (Pages.with_keywords kw data)) d
  = matches (query_of (Spec.without_keywords data)) d
    && field_is (title d) (test true (keywords_regex kw)).
Proof.
  intros Hne. rewrite matches_keywords.
  assert (Hw : Spec.without_keywords (Pages.with_keywords kw data)
               = Spec.without_keywords data) by reflexivity.
  rewrite Hw. f_equal.
  unfold query_of, title_of, Pages.with_keywords; cbn [title_regex keywords].
  destruct kw; [congruence|reflexivity].
Qed.

(** X17. Keywords add up: a search for two groups of keywords joined by
    a space selects the entries that each group selects on its own, so
    that the order of the groups does not matter. *)
Theorem keywords_add_up (a b : string) (data : QueryString) (d : Doc) :
  a <> EmptyString -> b <> EmptyString ->
  matches (query_of (Pages.with_keywords (a ++ String " " b) data)) d
  = matches (query_of (Pages.with_keywords a data)) d
    && matches (query_of (Pages.with_keywords b data)) d
  /\ matches (query_of (Pages.with_keywords (a ++ String " " b) data)) d
     = matches (query_of (Pages.with_keywords (b ++ String " " a) data)) d.
Proof.
  intros Ha Hb.
  assert (Hab : forall x y : string, x ++ String " " y <> EmptyString)
    by (intros [|c x] y; discriminate).
  rewrite !matches_with_keywords by auto.
  destruct (title d) as [t|]; cbn [field_is].
  - rewrite !keywords_regex_app.
    destruct (matches _ d), (test true (keywords_regex a) t),
      (test true (keywords_regex b) t); split; reflexivity.
  - destruct (matches _ d); split; reflexivity.
Qed.

Lemma keywords_add_up_witness :
  matches (query_of (Pages.with_keywords ("dead" ++ String " " "walking")
                       Sample.no_parameters)) Sample.walking
  = matches (query_of (Pages.with_keywords "dead" Sample.no_parameters)) Sample.walking
    && matches (query_of (Pages.with_keywords "walking" Sample.no_parameters)) Sample.walking
  /\ matches (query_of (Pages.with_keywords ("dead" ++ String " " "walking")
                          Sample.no_parameters)) Sample.walking
     = matches (query_of (Pages.with_keywords ("walking" ++ String " " "dead")
                            Sample.no_parameters)) Sample.walking.
Proof.
  apply (keywords_add_up "dead" "walking" Sample.no_parameters Sample.walking);
    discriminate.
Defined.

Lemma fold_string_list (s : string) :
  list_ascii_of_string (Pages.fold_string s) = Spec.fold (list_ascii_of_string s).
Proof. induction s as [|a r IH]; simpl; [reflexivity|]. now rewrite IH. Qed.

Lemma same_text_fold_string (s t : string) :
  Spec.same_text s t -> Pages.fold_string s = Pages.fold_string t.
Proof.
  unfold Spec.same_text. rewrite <- !fold_string_list. intros H.
  rewrite <- (string_of_list_ascii_of_string (Pages.fold_string s)).
  rewrite <- (string_of_list_ascii_of_string (Pages.fold_string t)).
  now rewrite H.
Qed.

Lemma fold_char_facts (a : ascii) :
  (Js.fold_char a =? " ")%char = (a =? " ")%char
  /\ Js.is_alnum (Js.fold_char a) = Js.is_alnum a
  /\ Js.lower_char (Js.fold_char a) = Js.lower_char a
  /\ (Js.fold_char a =? "010")%char = (a =? "010")%char
  /\ (Js.fold_char a =? "-")%char = (a =? "-")%char
  /\ Js.is_space (Js.fold_char a) = Js.is_space a.
Proof. destruct a as [[] [] [] [] [] [] [] []]; repeat split. Qed.

Lemma split_space_fold_string (s : string) :
  Js.split_space (Pages.fold_string s) = map Pages.fold_string (Js.split_space s).
Proof.
  induction s as [|a r IH]; [reflexivity|].
  cbn [Pages.fold_string Js.split_space]. rewrite IH.
  rewrite (proj1 (fold_char_facts a)).
  destruct (a =? " ")%char; [reflexivity|].
  now destruct (Js.split_space r).
Qed.

Lemma sanitize_fold_string (p : string) :
  Spec.sanitize (Pages.fold_string p) = Spec.sanitize p.
Proof.
  unfold Spec.sanitize. induction p as [|a r IH]; [reflexivity|].
  cbn [Pages.fold_string Js.strip_non_alnum].
  destruct (fold_char_facts a) as [_ [Hal [Hlow _]]]. rewrite Hal.
  destruct (Js.is_alnum a); cbn [Js.toLowerCase]; [|exact IH].
  now rewrite Hlow, IH.
Qed.

Lemma words_of_fold_string (kw : string) :
  words_of (Pages.fold_string kw) = words_of kw.
Proof.
  unfold words_of. rewrite split_space_fold_string, map_map.
  apply map_ext. intros p. apply sanitize_fold_string.
Qed.

Lemma caseless_lookaheads (ws : list string) (re : regex) :
  Spec.caseless re ->
  Spec.caseless (fold_left (fun re w => RSeq re (lookahead w)) ws re).
Proof.
  revert re. induction ws as [|w ws IH]; intros re Hre; [exact Hre|].
  apply IH. split; [exact Hre|].
  repeat split; try apply caseless_lit.
  intros a. simpl. now rewrite (proj1 (proj2 (proj2 (proj2 (fold_char_facts a))))).
Qed.

Lemma caseless_keywords_regex (kw : string) : Spec.caseless (keywords_regex kw).
Proof.
  split; [now apply caseless_lookaheads|].
  intros a. simpl. now rewrite (proj1 (proj2 (proj2 (proj2 (fold_char_facts a))))).
Qed.

(** X18. The search is blind to the case of the letters A-Z, in the
    keywords as in the title: keywords that differ by case only give
    the same pattern, and titles that differ by case only are matched
    alike. *)
Theorem keywords_case_blind (kw kw' t t' : string) :
  (Spec.same_text kw kw' -> keywords_regex kw = keywords_regex kw')
  /\ (Spec.same_text t t' ->
      test true (keywords_regex kw) t = test true (keywords_regex kw) t').
Proof.
  split.
  - intros H. unfold keywords_regex.
    rewrite <- (words_of_fold_string kw), <- (words_of_fold_string kw').
    now rewrite (same_text_fold_string kw kw' H).
  - intros H.
    apply (matches_i_same_text (keywords_regex kw) t t');
      [apply caseless_keywords_regex|exact H].
Qed.

Lemma keywords_case_blind_witness :
  keywords_regex "Walking DEAD" = keywords_regex "walking dead".
Proof.
  apply (proj1 (keywords_case_blind "Walking DEAD" "walking dead" "" "")).
  reflexivity.
Defined.

Lemma words_of_cons (a : ascii) (r : string) :
  (a =? " ")%char = false ->
  words_of (String a r)
  = match words_of r with
    | w :: ws => (if Js.is_alnum a then String (Js.lower_char a) w else w) :: ws
    | [] => []
    end.
Proof.
  intros Ha. unfold words_of. cbn [Js.split_space]. rewrite Ha.
  pose proof (split_space_nonempty r) as Hne.
  destruct (Js.split_space r) as [|w ws]; [congruence|].
  cbn [map Js.strip_non_alnum]. now destruct (Js.is_alnum a).
Qed.

Lemma words_of_drop_marks (kw : string) :
  words_of (Pages.drop_marks kw) = words_of kw.
Proof.
  induction kw as [|a r IH]; [reflexivity|].
  cbn [Pages.drop_marks].
  destruct (a =? " ")%char eqn:Hsp.
  - rewrite orb_true_r. unfold words_of in *. cbn [Js.split_space].
    rewrite Hsp. cbn [map]. now rewrite IH.
  - rewrite orb_false_r. rewrite (words_of_cons a r Hsp).
    destruct (Js.is_alnum a) eqn:Hal.
    + rewrite (words_of_cons a _ Hsp), Hal. now rewrite IH.
    + rewrite IH. pose proof (split_space_nonempty r) as Hne.
      unfold words_of. destruct (Js.split_space r); [congruence|reflexivity].
Qed.

(** X19. What is neither a letter, a digit nor a space counts for
    nothing in the keywords: taking these characters out leaves the
    pattern as it is, and the selection too as long as something is
    left of the keywords. *)
Theorem keywords_marks_ignored (kw : string) (data : QueryString) (d : Doc) :
  keywords_regex (Pages.drop_marks kw) = keywords_regex kw
  /\ (Pages.drop_marks kw <> EmptyString ->
      matches (query_of (Pages.with_keywords (Pages.drop_marks kw) data)) d
      = matches (query_of (Pages.with_keywords kw data)) d).
Proof.
  assert (Hre : keywords_regex (Pages.drop_marks kw) = keywords_regex kw)
    by (unfold keywords_regex; now rewrite words_of_drop_marks).
  split; [exact Hre|].
  intros Hne.
  assert (Hkw : kw <> EmptyString) by (intros ->; now apply Hne).
  now rewrite !matches_with_keywords, Hre by assumption.
Qed.

Lemma keywords_marks_ignored_witness :
  matches (query_of (Pages.with_keywords (Pages.drop_marks "walking-dead!")
                       Sample.no_parameters)) Sample.walking
  = matches (query_of (Pages.with_keywords "walking-dead!" Sample.no_parameters))
      Sample.walking.
Proof.
  apply (proj2 (keywords_marks_ignored "walking-dead!" Sample.no_parameters
                  Sample.walking)).
  discriminate.
Defined.

(** *** The genre, once more *)

Lemma toLowerCase_fold_string (s : string) :
  Js.toLowerCase (Pages.fold_string s) = Js.toLowerCase s.
Proof.
  induction s as [|a r IH]; [reflexivity|].
  cbn [Pages.fold_string Js.toLowerCase].
  now rewrite (proj1 (proj2 (proj2 (fold_char_facts a)))), IH.
Qed.

Lemma lower_char_idem (a : ascii) : Js.lower_char (Js.lower_char a) = Js.lower_char a.
Proof. by_all_chars a. Qed.

Lemma toLowerCase_idem (s : string) : Js.toLowerCase (Js.toLowerCase s) = Js.toLowerCase s.
Proof.
  induction s as [|a r IH]; [reflexivity|].
  cbn [Js.toLowerCase]. now rewrite lower_char_idem, IH.
Qed.

Lemma caseless_two_parts (first second : string) :
  Spec.caseless (RSeq (lit first) (RSeq dash_or_space (lit second))).
Proof.
  repeat split; try apply caseless_lit.
  intros a. simpl.
  destruct (fold_char_facts a) as [_ [_ [_ [_ [Hd Hs]]]]]. now rewrite Hd, Hs.
Qed.

(** X20. The genre of a request is read whatever the case of its
    letters A-Z, and what is asked of the store is always in small
    letters, so that a stored tag with a capital letter is never
    found. *)
Theorem genre_case_blind (g g' : string) (data : QueryString) :
  (Spec.same_text g g' ->
   genre_of (Pages.with_genre g data) = genre_of (Pages.with_genre g' data))
  /\ (forall tag, genre_of data = Some tag -> Js.toLowerCase tag = tag)
  /\ (forall tag tags d,
         genre_of data = Some tag -> genres d = Some tags ->
         Forall (fun t => Js.toLowerCase t <> t) tags ->
         matches (query_of data) d = false).
Proof.
  assert (Hsmall : forall tag, genre_of data = Some tag -> Js.toLowerCase tag = tag).
  { intros tag. unfold genre_of. destruct (genre data) as [x|]; [|discriminate].
    destruct (Js.truthy (Some x) && negb (matches_i re_all x)); [|discriminate].
    intros H. injection H as <-. apply toLowerCase_idem. }
  split; [|split; [exact Hsmall|]].
  - intros H. unfold genre_of, Pages.with_genre; cbn [genre].
    rewrite (matches_i_same_text re_all g g' (caseless_lit _) H).
    rewrite (matches_i_same_text re_science_fiction g g' (caseless_two_parts _ _) H).
    rewrite (matches_i_same_text re_sci_fi g g' (caseless_two_parts _ _) H).
    assert (Htruthy : Js.truthy (Some g) = Js.truthy (Some g')).
    { destruct g, g'; try reflexivity; discriminate H. }
    rewrite Htruthy.
    destruct (Js.truthy (Some g') && negb (matches_i re_all g')); [|reflexivity].
    destruct (matches_i re_science_fiction g' || matches_i re_sci_fi g');
      [reflexivity|].
    rewrite <- (toLowerCase_fold_string g), <- (toLowerCase_fold_string g').
    now rewrite (same_text_fold_string g g' H).
  - intros tag tags d Htag Htags Hcap.
    rewrite matches_genre, Htag, Htags. cbn [holds field_is].
    assert (Hno : existsb (String.eqb tag) tags = false).
    { apply not_true_is_false. intros Hex. apply existsb_exists in Hex.
      destruct Hex as [t [Hin Ht]]. apply String.eqb_eq in Ht. subst t.
      rewrite Forall_forall in Hcap. apply (Hcap tag Hin). now apply Hsmall. }
    rewrite Hno. apply andb_false_r.
Qed.

Lemma genre_case_blind_witness :
  genre_of (Pages.with_genre "DRAMA" Sample.no_parameters)
  = genre_of (Pages.with_genre "drama" Sample.no_parameters).
Proof.
  apply (proj1 (genre_case_blind "DRAMA" "drama" Sample.no_parameters)).
  reflexivity.
Defined.

(** *** The sort, once more *)

(** X21. When the [sort] parameter holds several of the names, or none,
    the last test that succeeds decides: "year" comes before "updated",
    then "trending", then "rating", then "name", each looked for
    anywhere in the parameter and in any case; a parameter that holds
    none of them leaves the default sort. *)
Theorem sort_of_precedence (data : QueryString) (s : string) :
  Express.sort data = Some s -> s <> EmptyString ->
  (Spec.contains_text "year" s -> sort_of data = [ (By_year, order_of data) ])
  /\ (~ Spec.contains_text "year" s ->
      (Spec.contains_text "updated" s ->
       sort_of data = [ (By_latest_episode, order_of data) ])
      /\ (~ Spec.contains_text "updated" s ->
          (Spec.contains_text "trending" s ->
           sort_of data = [ (By_rating_watching, order_of data) ])
          /\ (~ Spec.contains_text "trending" s ->
              (Spec.contains_text "rating" s ->
               sort_of data = [ (By_rating_percentage, order_of data);
                                (By_rating_votes, order_of data) ])
              /\ (~ Spec.contains_text "rating" s ->
                  (Spec.contains_text "name" s ->
                   sort_of data = [ (By_title, order_of data) ])
                  /\ (~ Spec.contains_text "name" s ->
                      sort_of data = Pages.default_sort (order_of data)))))).
Proof.
  intros Hs Hne. unfold sort_of. rewrite Hs.
  destruct s as [|c s']; [congruence|]. cbn [Js.truthy].
  set (s := String c s') in *.
  pose proof (matches_i_lit "year" s) as Hyear.
  pose proof (matches_i_lit "updated" s) as Hupdated.
  pose proof (matches_i_lit "trending" s) as Htrending.
  pose proof (matches_i_lit "rating" s) as Hrating.
  pose proof (matches_i_lit "name" s) as Hname.
  change (lit "year") with re_year in Hyear.
  change (lit "updated") with re_updated in Hupdated.
  change (lit "trending") with re_trending in Htrending.
  change (lit "rating") with re_rating in Hrating.
  change (lit "name") with re_name in Hname.
  destruct (matches_i re_year s);
    [split; [reflexivity|intros H; contradiction H; now apply Hyear]|].
  split; [intros H; apply Hyear in H; discriminate H|intros _].
  destruct (matches_i re_updated s);
    [split; [reflexivity|intros H; contradiction H; now apply Hupdated]|].
  split; [intros H; apply Hupdated in H; discriminate H|intros _].
  destruct (matches_i re_trending s);
    [split; [reflexivity|intros H; contradiction H; now apply Htrending]|].
  split; [intros H; apply Htrending in H; discriminate H|intros _].
  destruct (matches_i re_rating s);
    [split; [reflexivity|intros H; contradiction H; now apply Hrating]|].
  split; [intros H; apply Hrating in H; discriminate H|intros _].
  destruct (matches_i re_name s);
    [split; [reflexivity|intros H; contradiction H; now apply Hname]|].
  split; [intros H; apply Hname in H; discriminate H|intros _].
  reflexivity.
Qed.

Lemma sort_of_precedence_witness :
  sort_of {| order := None; keywords := None; sort := Some "name,year"; genre := None |}
  = [ (By_year, Some (-1)) ].
Proof.
  refine (proj1 (sort_of_precedence
                   {| order := None; keywords := None;
                      sort := Some "name,year"; genre := None |}
                   "name,year" eq_refl _) _).
  - discriminate.
  - exists (list_ascii_of_string "name,"), (list_ascii_of_string "year"), [].
    split; reflexivity.
Defined.
